(** * proxy_resolver_v8.cc: the PAC script host and its IP utilities

    A shallow embedding of [src/proxy_resolver_v8.cc] (libpac).  The
    file follows the source from top to bottom: string helpers, the
    [IPAddress] wrapper and its ordering, [RemoveChars],
    [SortIpAddressList], [IsInNetEx], the V8 callbacks, the [Context]
    class and the [ProxyResolverV8] facade.

    V8 itself, the network bindings and the helpers of [net_util.h]
    are not part of the file; they enter as interfaces (classes and
    section variables) and every theorem holds for all of their
    implementations. *)

From Stdlib Require Import Ascii String.
From Stdlib.Strings Require Import Byte.
From Stdlib Require Import List Bool Arith NArith ZArith Lia.
From Stdlib Require Import Permutation Sorted.
Import ListNotations.

Set Implicit Arguments.

(** ** Strings *)

(** [std::string]: a sequence of [char], possibly with embedded NULs. *)
Definition std_string := list ascii.

(** [android::String16]: a sequence of UTF-16 code units
    ([unsigned short], so each lies in [0, 2^16)). *)
Definition String16 := list N.

(** [IPAddressNumber] is [std::vector<unsigned char>]. *)
Definition IPAddressNumber := list byte.

(** A string literal of the source. *)
Definition lit (s : string) : std_string := list_ascii_of_string s.

Definition NUL : ascii := Ascii.zero.

(** [c_str()] seen through a [char*]: the characters before the first
    NUL. *)
Fixpoint c_str (s : std_string) : std_string :=
  match s with
  | [] => []
  | c :: rest => if Ascii.eqb c NUL then [] else c :: c_str rest
  end.

(** The literal [" \t"] of the source. *)
Definition kSpaceTab : std_string := [" "%char; "009"%char].

(** Membership of a character in a C string of characters, as
    [find_first_of], [strspn] and [strcspn] test it. *)
Definition in_chars (c : ascii) (chars : std_string) : bool :=
  existsb (Ascii.eqb c) chars.

(** ** Runs that may exhaust their fuel

    Loops of the source are written with a fuel argument; [None] is
    "fuel exhausted".  Every entry point supplies enough fuel, which
    is proved below ([RemoveCharsT_spec], [SortIpAddressList_spec]). *)

Definition bind {A B : Type} (m : option A) (k : A -> option B) : option B :=
  match m with
  | Some a => k a
  | None => None
  end.

Notation "x <- m ;; k" := (bind m (fun x => k))
  (at level 61, m at next level, right associativity).
Notation "' pat <- m ;; k" := (bind m (fun x => match x with pat => k end))
  (at level 61, pat pattern, m at next level, right associativity).

(** ** DoIsStringASCII (lines 68-79) *)

(** The loop returns [false] at the first code unit above 0x7F. *)
Fixpoint DoIsStringASCII (str : String16) : bool :=
  match str with
  | [] => true
  | c :: rest => if (0x7F <? c)%N then false else DoIsStringASCII rest
  end.

Definition IsStringASCII (str : String16) : bool := DoIsStringASCII str.

(** ** RemoveChars (lines 246-269) *)

(** [str.find_first_of(chars, pos)]: index of the first character at
    or after [pos] that occurs in [chars]; [None] is [npos]. *)
Fixpoint find_first_of (str chars : std_string) (pos : nat) : option nat :=
  match str with
  | [] => None
  | c :: rest =>
      match pos with
      | O => if in_chars c chars then Some O
             else option_map S (find_first_of rest chars O)
      | S p => option_map S (find_first_of rest chars p)
      end
  end.

(** [str.replace(pos, 1, STR())]: erase the character at [pos].  The
    source only calls it with an index [find_first_of] returned. *)
Fixpoint replace1 (str : std_string) (pos : nat) : std_string :=
  match str, pos with
  | [], _ => []
  | _ :: rest, O => rest
  | c :: rest, S p => c :: replace1 rest p
  end.

(** The [while (found != npos)] loop; the state is [*output], [found]
    and [removed]. *)
Fixpoint RemoveCharsT_loop (fuel : nat) (remove_chars output : std_string)
    (found : option nat) (removed : bool) : option (bool * std_string) :=
  match found with
  | None => Some (removed, output)
  | Some pos =>
      match fuel with
      | O => None
      | S fuel' =>
          let output' := replace1 output pos in
          RemoveCharsT_loop fuel' remove_chars output'
            (find_first_of output' remove_chars pos) true
      end
  end.

Definition RemoveCharsT (input remove_chars : std_string)
    : option (bool * std_string) :=
  RemoveCharsT_loop (length input) remove_chars input
    (find_first_of input remove_chars 0) false.

Definition RemoveChars (input remove_chars : std_string)
    : option (bool * std_string) :=
  RemoveCharsT input remove_chars.

(** ** IPAddress and its ordering (lines 225-244) *)

Record IPAddress : Type := MkIPAddress {
  string_value : std_string;
  ip_address_number : IPAddressNumber
}.

(** [memcmp(s1, s2, n)]: the difference of the first pair of bytes
    that differ among the first [n], read as [unsigned char]; only
    its sign is specified by C. *)
Fixpoint memcmp (s1 s2 : list byte) (n : nat) : Z :=
  match n, s1, s2 with
  | S n', b1 :: r1, b2 :: r2 =>
      if Byte.eqb b1 b2 then memcmp r1 r2 n'
      else (Z.of_N (Byte.to_N b1) - Z.of_N (Byte.to_N b2))%Z
  | _, _, _ => 0%Z
  end.

(** [IPAddress::operator<]. *)
Definition IPAddress_lt (lhs rhs : IPAddress) : bool :=
  let ip1 := ip_address_number lhs in
  let ip2 := ip_address_number rhs in
  if negb (length ip1 =? length ip2)
  then length ip2 <? length ip1        (* IPv6 before IPv4 *)
  else (memcmp ip1 ip2 (length ip1) <? 0)%Z.

(** ** std::stable_sort

    The library routine, modelled by a stable insertion sort driven
    by the element type's [operator<]. *)
Section StableSort.
Variable T : Type.
Variable lt : T -> T -> bool.

(** [x] stood before every element of [l]: it moves right only
    past elements strictly below it. *)
Fixpoint insert_sorted (x : T) (l : list T) : list T :=
  match l with
  | [] => [x]
  | y :: ys => if lt y x then y :: insert_sorted x ys else x :: y :: ys
  end.

Fixpoint stable_sort (l : list T) : list T :=
  match l with
  | [] => []
  | x :: xs => insert_sorted x (stable_sort xs)
  end.
End StableSort.

(** ** strtok *)

(** [s + strspn(s, delim)]. *)
Fixpoint skip_delims (s delim : std_string) : std_string :=
  match s with
  | [] => []
  | c :: rest => if in_chars c delim then skip_delims rest delim else s
  end.

(** The token of length [strcspn(s, delim)] and what follows it. *)
Fixpoint take_token (s delim : std_string) : std_string * std_string :=
  match s with
  | [] => ([], [])
  | c :: rest =>
      if in_chars c delim then ([], s)
      else let (tok, after) := take_token rest delim in (c :: tok, after)
  end.

(** One call of [strtok]: [save] is the C string at the saved
    position.  The result is [None] for a NULL return, otherwise the
    token and the new saved position (past the delimiter that was
    overwritten with NUL, or at the end of the string). *)
Definition strtok (save delim : std_string)
    : option (std_string * std_string) :=
  match skip_delims save delim with
  | [] => None
  | s =>
      let (tok, after) := take_token s delim in
      Some (tok, match after with [] => [] | _ :: rest => rest end)
  end.

(** ** SortIpAddressList (lines 278-314) *)

(** How the [while (tok_list != NULL)] loop is left. *)
Inductive tok_loop_exit : Type :=
| ReturnFalse                              (* a token failed to parse *)
| LoopDone (ip_vector : list IPAddress).   (* strtok returned NULL *)

Section IPUtilities.

(** [net_util.h]: [ParseIPLiteralToNumber(literal, &number)];
    [None] is a [false] return. *)
Variable ParseIPLiteralToNumber : std_string -> option IPAddressNumber.

Fixpoint SortIpAddressList_loop (fuel : nat)
    (tok_list : option (std_string * std_string))
    (ip_vector : list IPAddress) : option tok_loop_exit :=
  match tok_list with
  | None => Some (LoopDone ip_vector)
  | Some (tok, save) =>
      match fuel with
      | O => None
      | S fuel' =>
          match ParseIPLiteralToNumber tok with
          | None => Some ReturnFalse
          | Some ip_num =>
              SortIpAddressList_loop fuel' (strtok save (lit ";"))
                (ip_vector ++ [MkIPAddress tok ip_num])
          end
      end
  end.

(** The final [for] loop: [";"] before every element but the
    first. *)
Fixpoint SortIpAddressList_join (i : nat) (ip_vector : list IPAddress)
    (sorted_ip_address_list : std_string) : std_string :=
  match ip_vector with
  | [] => sorted_ip_address_list
  | a :: rest =>
      let s := if 0 <? i then sorted_ip_address_list ++ lit ";"
               else sorted_ip_address_list in
      SortIpAddressList_join (S i) rest (s ++ string_value a)
  end.

(** The pair is the [bool] result and [*sorted_ip_address_list]. *)
Definition SortIpAddressList (ip_address_list : std_string)
    : option (bool * std_string) :=
  let sorted_ip_address_list : std_string := [] in     (* clear() *)
  '(_, cleaned_ip_address_list) <-
     RemoveChars ip_address_list kSpaceTab ;;
  match cleaned_ip_address_list with
  | [] => Some (false, sorted_ip_address_list)
  | _ :: _ =>
      r <- SortIpAddressList_loop (length cleaned_ip_address_list)
             (strtok (c_str cleaned_ip_address_list) (lit ";")) [] ;;
      match r with
      | ReturnFalse => Some (false, sorted_ip_address_list)
      | LoopDone [] => Some (false, sorted_ip_address_list)
      | LoopDone ip_vector =>
          let ip_vector :=
            if 1 <? length ip_vector
            then stable_sort IPAddress_lt ip_vector
            else ip_vector in
          Some (true,
                SortIpAddressList_join 0 ip_vector sorted_ip_address_list)
      end
  end.

(** ** IsInNetEx (lines 324-342) *)

(** [net_util.h]: [ParseCIDRBlock(cidr, &prefix, &length_in_bits)];
    [None] is a [false] return. *)
Variable ParseCIDRBlock : std_string -> option (IPAddressNumber * nat).

(** [net_util.h]: [IPNumberMatchesPrefix(number, prefix, length)]. *)
Variable IPNumberMatchesPrefix :
  IPAddressNumber -> IPAddressNumber -> nat -> bool.

Definition IsInNetEx (ip_address ip_prefix : std_string) : option bool :=
  '(removed, cleaned_ip_address) <- RemoveChars ip_address kSpaceTab ;;
  if removed then Some false
  else
    match ParseIPLiteralToNumber ip_address with
    | None => Some false
    | Some address =>
        match ParseCIDRBlock ip_prefix with
        | None => Some false
        | Some (prefix, prefix_length_in_bits) =>
            if negb (length address =? length prefix) then Some false
            else Some (IPNumberMatchesPrefix address prefix
                         prefix_length_in_bits)
        end
    end.

End IPUtilities.

(** Bit [i] of an address, counted from the most significant bit of
    its first byte. *)
Definition ip_bit (ip : IPAddressNumber) (i : nat) : bool :=
  N.testbit (Byte.to_N (nth (i / 8) ip x00)) (N.of_nat (7 - i mod 8)).

(** Modelled from the spec: [IPNumberMatchesPrefix] of [net_util] is
    declared in [net_util.h] and defined outside this file.  Section
    4.3, step 5: "true iff the top [bitlength] bits of address match
    the prefix network". *)
Definition IPNumberMatchesPrefix (ip_number ip_prefix : IPAddressNumber)
    (prefix_length_in_bits : nat) : bool :=
  forallb (fun i => Bool.eqb (ip_bit ip_number i) (ip_bit ip_prefix i))
          (seq 0 prefix_length_in_bits).

(** ** The hosted engine *)

(** A JavaScript value, as far as the host inspects one. *)
Inductive Value : Type :=
| VUndefined
| VNull
| VBoolean (b : bool)
| VNumber (ieee754 : N)
| VString (units : String16)
| VFunction (ref : N)
| VObject (ref : N).

Definition IsString (v : Value) : bool :=
  match v with VString _ => true | _ => false end.

Definition IsFunction (v : Value) : bool :=
  match v with VFunction _ => true | _ => false end.

(** What the world outside the resolver observes: messages handed to
    the [ProxyErrorListener], and the engine being entered
    ([v8::Locker]). *)
Inductive Event : Type :=
| EngineLocked
| ErrorMessage (text : String16)
| AlertMessage (text : String16).

(** How a script or a call completes under a [v8::TryCatch]:
    normally, or with an exception caught.  [message] is
    [try_catch.Message()], which may be an empty handle. *)
Inductive Completion (A : Type) : Type :=
| Normal (a : A)
| Caught (message : option String16).
Arguments Normal {A} a.
Arguments Caught {A} message.

(** A C++ call either returns or dereferences a null pointer or an
    empty handle (undefined behaviour; in practice the process
    dies). *)
Inductive outcome (A : Type) : Type :=
| Returned (a : A)
| Crashed.
Arguments Returned {A} a.
Arguments Crashed {A}.

(** The V8 API the file calls.  [Isolate] is the state of one isolate
    together with the one context the host creates in it.
    [Script_Compile] returns an empty handle exactly when it throws,
    which is V8's contract. *)
Class V8 : Type := {
  Isolate : Type;
  Script : Type;
  Isolate_New : Isolate;
  Context_New : Isolate -> list std_string -> Isolate;
  NewFromUtf8 : std_string -> String16;
  Script_Compile : Isolate -> String16 -> std_string -> Completion Script;
  Script_Run : Isolate -> Script -> Isolate * list Event * Completion Value;
  Global_Get : Isolate -> String16 -> Value;
  Function_Call :
    Isolate -> Value -> list Value -> Isolate * list Event * Completion Value;
  LowMemoryNotification : Isolate -> Isolate
}.

(** Modelled from the spec: the status constants of
    [proxy_resolver_v8.h], which is outside this file.  Section 6
    lists the three statuses of [GetProxyForURL] as [OK],
    [NotInitialized] ([ERR_FAILED]) and [ScriptFailure]
    ([ERR_PAC_SCRIPT_FAILED]). *)
Inductive net_error : Type :=
| OK
| ERR_FAILED
| ERR_PAC_SCRIPT_FAILED.

Definition is_OK (rv : net_error) : bool :=
  match rv with OK => true | _ => false end.

(** The two string literals of [proxy_resolver_script.h], which is
    outside this file. *)
Class ProxyResolverScript : Type := {
  PROXY_RESOLVER_SCRIPT : std_string;
  PROXY_RESOLVER_SCRIPT_EX : std_string
}.

(** The [ProxyResolverJSBindings] interface: each method returns its
    [bool] and the string it wrote. *)
Class ProxyResolverJSBindings : Type := {
  MyIpAddress : bool * std_string;
  MyIpAddressEx : bool * std_string;
  DnsResolve : std_string -> bool * std_string;
  DnsResolveEx : std_string -> bool * std_string
}.

Definition kPacResourceName : std_string := lit "proxy-pac-script.js".
Definition kPacUtilityResourceName : std_string :=
  lit "proxy-pac-utility-script.js".
Definition kMaxStringBytesForCopy : nat := 256.

(** The [android::String16] built from an ASCII literal. *)
Definition String16_of_literal (s : string) : String16 :=
  map N_of_ascii (lit s).

(** ** String marshaling (lines 150-190) *)

(** [V8StringToUTF16]: [Write] copies the [Length()] code units. *)
Definition V8StringToUTF16 (s : String16) : String16 := s.

(** [UTF16ToASCII]: [android::String8(str)] re-encodes as UTF-8 and
    the [std::string] built from its C string stops at the first NUL.  Its one
    caller passes ASCII strings only, for which UTF-8 is one byte per
    code unit. *)
Definition UTF16ToASCII (str : String16) : std_string :=
  c_str (map ascii_of_N str).

(** [UTF16StringToV8String]: [NewFromTwoByte] of the code units. *)
Definition UTF16StringToV8String (s : String16) : Value := VString s.

Section Host.
Context {v8 : V8}.

(** [ASCIIStringToV8String]. *)
Definition ASCIIStringToV8String (s : std_string) : Value :=
  VString (NewFromUtf8 s).

(** [ASCIILiteralToV8String]: a copy up to [kMaxStringBytesForCopy]
    bytes, an external one-byte string above. *)
Definition ASCIILiteralToV8String (ascii : std_string) : Value :=
  if length ascii <=? kMaxStringBytesForCopy
  then VString (NewFromUtf8 ascii)
  else VString (map N_of_ascii ascii).

(** ** The callbacks (lines 208-223, 621-671) *)

(** [args]: one handle per argument; [None] is an empty handle. *)
Definition FunctionCallbackInfo := list (option Value).

(** [args.GetReturnValue()]: untouched, the script sees
    [undefined]. *)
Inductive ReturnValue : Type :=
| Unset
| SetTo (v : Value).

Definition observed (r : ReturnValue) : Value :=
  match r with Unset => VUndefined | SetTo v => v end.

(** What a callback leaves behind: the return value and the
    exception it scheduled, if any. *)
Record CallbackResult : Type := MkCallbackResult {
  return_value : ReturnValue;
  pending_exception : option Value
}.

(** [GetHostnameArgument]; [None] is a [false] return. *)
Definition GetHostnameArgument (args : FunctionCallbackInfo)
    : option std_string :=
  match args with
  | [] => None                                  (* args.Length() == 0 *)
  | None :: _ => None                           (* args[0].IsEmpty() *)
  | Some (VString s) :: _ =>
      let hostname_utf16 := V8StringToUTF16 s in
      if IsStringASCII hostname_utf16
      then Some (UTF16ToASCII hostname_utf16)
      else None
  | Some _ :: _ => None                         (* !args[0]->IsString() *)
  end.

Context {js_bindings_ : ProxyResolverJSBindings}.

Definition DnsResolveCallback (args : FunctionCallbackInfo)
    : CallbackResult :=
  match GetHostnameArgument args with
  | None => MkCallbackResult Unset None
  | Some hostname =>
      let (success, ip_address) := DnsResolve hostname in
      if success
      then MkCallbackResult (SetTo (ASCIIStringToV8String ip_address)) None
      else MkCallbackResult (SetTo VNull) None
  end.

Definition DnsResolveExCallback (args : FunctionCallbackInfo)
    : CallbackResult :=
  match GetHostnameArgument args with
  | None => MkCallbackResult (SetTo VNull) None
  | Some hostname =>
      let (success, ip_address_list) := DnsResolveEx hostname in
      let ip_address_list := if success then ip_address_list else [] in
      MkCallbackResult (SetTo (ASCIIStringToV8String ip_address_list)) None
  end.

(** ** ProxyResolverV8::Context (lines 359-711) *)

Context {script_h : ProxyResolverScript}.

(** The class [ProxyResolverV8::Context] ([Context] is reserved in
    Rocq). *)
Record ResolverContext : Type := MkContext {
  isolate_ : Isolate
}.

(** The names [InitV8] attaches to the global template. *)
Definition global_template : list std_string :=
  [lit "alert"; lit "myIpAddress"; lit "dnsResolve"; lit "dnsResolveEx";
   lit "myIpAddressEx"; lit "sortIpAddressList"; lit "isInNetEx"].

(** [GetFindProxyForURL]: the [bool] and [*function]. *)
Definition GetFindProxyForURL (this : ResolverContext) : bool * Value :=
  let function :=
    Global_Get (isolate_ this) (NewFromUtf8 (lit "FindProxyForURL")) in
  (IsFunction function, function).

(** [HandleError]. *)
Definition HandleError (message : option String16) : list Event :=
  match message with
  | None => []
  | Some text => [ErrorMessage text]
  end.

(** [RunScript]: the status, the isolate afterwards and what the
    listener received. *)
Definition RunScript (this : ResolverContext) (script : String16)
    (script_name : std_string) : net_error * ResolverContext * list Event :=
  match Script_Compile (isolate_ this) script script_name with
  | Caught message =>
      (ERR_PAC_SCRIPT_FAILED, this, HandleError message)
  | Normal code =>
      let '(isolate', events, completion) :=
        Script_Run (isolate_ this) code in
      match completion with
      | Caught message =>
          (ERR_PAC_SCRIPT_FAILED, MkContext isolate',
           events ++ HandleError message)
      | Normal _ => (OK, MkContext isolate', events)
      end
  end.

Definition utility_script : String16 :=
  match ASCIILiteralToV8String
          (PROXY_RESOLVER_SCRIPT ++ PROXY_RESOLVER_SCRIPT_EX) with
  | VString s => s
  | _ => []
  end.

Definition InitV8 (this : ResolverContext) (pac_script : String16)
    : net_error * ResolverContext * list Event :=
  let this := MkContext (Context_New (isolate_ this) global_template) in
  let '(rv, this, events1) :=
    RunScript this utility_script kPacUtilityResourceName in
  if negb (is_OK rv) then (rv, this, EngineLocked :: events1)
  else
    let '(rv, this, events2) :=
      RunScript this pac_script kPacResourceName in
    if negb (is_OK rv) then (rv, this, EngineLocked :: events1 ++ events2)
    else
      if negb (fst (GetFindProxyForURL this))
      then (ERR_PAC_SCRIPT_FAILED, this, EngineLocked :: events1 ++ events2)
      else (OK, this, EngineLocked :: events1 ++ events2).

(** [ResolveProxy]: the status, [*results], what was observed and
    the context afterwards. *)
Definition ResolveProxy (this : ResolverContext) (url host results : String16)
    : outcome (net_error * String16 * list Event * ResolverContext) :=
  let (is_function, function) := GetFindProxyForURL this in
  if negb is_function
  then Returned (ERR_PAC_SCRIPT_FAILED, results,
                 [EngineLocked;
                  ErrorMessage
                    (String16_of_literal "FindProxyForURL() is undefined")],
                 this)
  else
    let argv := [UTF16StringToV8String url; UTF16StringToV8String host] in
    let '(isolate', events, completion) :=
      Function_Call (isolate_ this) function argv in
    let this := MkContext isolate' in
    match completion with
    | Caught None => Crashed          (* try_catch.Message()->Get() *)
    | Caught (Some text) =>
        Returned (ERR_PAC_SCRIPT_FAILED, results,
                  EngineLocked :: events ++ [ErrorMessage text], this)
    | Normal (VString ret) =>
        let results := V8StringToUTF16 ret in
        if negb (IsStringASCII results)
        then Returned (ERR_PAC_SCRIPT_FAILED, results,
                       EngineLocked :: events ++
                       [ErrorMessage
                          (String16_of_literal
                             "FindProxyForURL() returned a non-ASCII string")],
                       this)
        else Returned (OK, results, EngineLocked :: events, this)
    | Normal _ =>
        Returned (ERR_PAC_SCRIPT_FAILED, results,
                  EngineLocked :: events ++
                  [ErrorMessage
                     (String16_of_literal
                        "FindProxyForURL() did not return a string.")],
                  this)
    end.

Definition Context_PurgeMemory (this : ResolverContext)
    : ResolverContext * list Event :=
  (MkContext (LowMemoryNotification (isolate_ this)), [EngineLocked]).

(** [~Context]: the handles are reset under the isolate's lock. *)
Definition Context_delete (this : ResolverContext) : list Event :=
  [EngineLocked].

(** ** ProxyResolverV8 (lines 713-784) *)

(** [context_] is [None] for a NULL pointer. *)
Record ProxyResolverV8 : Type := MkProxyResolverV8 {
  context_ : option ResolverContext
}.

(** The constructor. *)
Definition ProxyResolverV8_new : ProxyResolverV8 :=
  MkProxyResolverV8 None.

Definition GetProxyForURL (this : ProxyResolverV8)
    (spec host results : String16)
    : outcome (net_error * String16 * list Event * ProxyResolverV8) :=
  match context_ this with
  | None => Returned (ERR_FAILED, results, [], this)
  | Some context =>
      match ResolveProxy context spec host results with
      | Crashed => Crashed
      | Returned (rv, results, events, context) =>
          Returned (rv, results, events, MkProxyResolverV8 (Some context))
      end
  end.

(** [context_->PurgeMemory()], with no test of [context_]. *)
Definition PurgeMemory (this : ProxyResolverV8)
    : outcome (ProxyResolverV8 * list Event) :=
  match context_ this with
  | None => Crashed
  | Some context =>
      let (context, events) := Context_PurgeMemory context in
      Returned (MkProxyResolverV8 (Some context), events)
  end.

Definition SetPacScript (this : ProxyResolverV8) (script_data : String16)
    : net_error * ProxyResolverV8 * list Event :=
  let events0 :=
    match context_ this with
    | Some context => Context_delete context
    | None => []
    end in
  let this := MkProxyResolverV8 None in
  if length script_data =? 0
  then (ERR_PAC_SCRIPT_FAILED, this, events0)
  else
    let context := MkContext Isolate_New in
    let '(rv, context, events) := InitV8 context script_data in
    if negb (is_OK rv)
    then (rv, MkProxyResolverV8 None, events0 ++ events)
    else (rv, MkProxyResolverV8 (Some context), events0 ++ events).

End Host.

(** * Specification vocabulary

    The notions the properties below are stated in.  They are written
    independently of the loops above and related to them by proof. *)

Definition kept (chars : std_string) (c : ascii) : bool :=
  negb (in_chars c chars).

(** The input without its space and tab characters. *)
Definition strip (s : std_string) : std_string :=
  filter (kept kSpaceTab) s.

(** All segments between occurrences of [d], empty ones included. *)
Fixpoint split_on (d : ascii) (s : std_string) : list std_string :=
  match s with
  | [] => [[]]
  | c :: rest =>
      if Ascii.eqb c d then [] :: split_on d rest
      else match split_on d rest with
           | seg :: segs => (c :: seg) :: segs
           | [] => [[c]]
           end
  end.

Definition nonempty (s : std_string) : bool :=
  match s with [] => false | _ :: _ => true end.

(** The tokens of an address list: the non-empty segments between
    [";"] of the stripped input, read as a C string. *)
Definition tokens (s : std_string) : list std_string :=
  filter nonempty (split_on ";"%char (c_str (strip s))).

(** Segments put together with [";"] between them. *)
Fixpoint join (segs : list std_string) : std_string :=
  match segs with
  | [] => []
  | [seg] => seg
  | seg :: rest => seg ++ lit ";" ++ join rest
  end.

(** Every token with its parsed number, if all of them parse. *)
Fixpoint parse_all (parse : std_string -> option IPAddressNumber)
    (toks : list std_string) : option (list IPAddress) :=
  match toks with
  | [] => Some []
  | tok :: rest =>
      match parse tok, parse_all parse rest with
      | Some ip_num, Some addrs => Some (MkIPAddress tok ip_num :: addrs)
      | _, _ => None
      end
  end.

(** Lexicographic order on bytes read as unsigned numbers. *)
Inductive lex_lt : list byte -> list byte -> Prop :=
| lex_lt_here : forall b1 b2 r1 r2,
    (Byte.to_N b1 < Byte.to_N b2)%N -> lex_lt (b1 :: r1) (b2 :: r2)
| lex_lt_next : forall b r1 r2,
    lex_lt r1 r2 -> lex_lt (b :: r1) (b :: r2).

(** The order of the sorted list: a longer number (IPv6, 16 bytes)
    comes before a shorter one (IPv4, 4 bytes); numbers of one length
    are ordered bytewise. *)
Definition sorts_before (a b : IPAddressNumber) : Prop :=
  length b < length a \/ (length a = length b /\ lex_lt a b).

Definition ascending (a b : IPAddress) : Prop :=
  sorts_before (ip_address_number a) (ip_address_number b) \/
  ip_address_number a = ip_address_number b.

Definition has_number (n : IPAddressNumber) (a : IPAddress) : bool :=
  if list_eq_dec Byte.byte_eq_dec (ip_address_number a) n
  then true else false.

(** [sorted] is [addrs] put in ascending order, addresses of equal
    number keeping the order they had. *)
Definition stably_sorted (addrs sorted : list IPAddress) : Prop :=
  Permutation addrs sorted /\
  StronglySorted ascending sorted /\
  forall n, filter (has_number n) sorted = filter (has_number n) addrs.

(** A segment that joining, stripping and C-string reading leave
    alone: no [";"], space, tab or NUL in it. *)
Definition plain (seg : std_string) : Prop :=
  forall c, In c seg ->
    in_chars c (lit ";") = false /\ in_chars c kSpaceTab = false /\
    Ascii.eqb c NUL = false.

Definition is_ascii_unit (c : N) : Prop := (c <= 0x7F)%N.

(** Compiling and running a source in an isolate, as the engine does
    it; a source that does not compile leaves the isolate as it
    was. *)
Definition run_source {v8 : V8} (isolate : Isolate) (source : String16)
    (name : std_string) : Isolate * list Event * Completion Value :=
  match Script_Compile isolate source name with
  | Caught message => (isolate, [], Caught message)
  | Normal code => Script_Run isolate code
  end.

(** The source parses and runs, leaving the isolate as [isolate']. *)
Definition script_runs {v8 : V8} (isolate : Isolate) (source : String16)
    (name : std_string) (isolate' : Isolate) : Prop :=
  exists events v,
    run_source isolate source name = (isolate', events, Normal v).

(** The global [FindProxyForURL] is a function. *)
Definition entry_callable {v8 : V8} (isolate : Isolate) : Prop :=
  IsFunction (Global_Get isolate (NewFromUtf8 (lit "FindProxyForURL"))) = true.

(** The first argument of a hostname callback is missing, empty, not
    a string, or a string with a code unit above 0x7F. *)
Definition no_ascii_hostname (args : FunctionCallbackInfo) : Prop :=
  args = [] \/
  (exists rest, args = None :: rest) \/
  (exists v rest, args = Some v :: rest /\ IsString v = false) \/
  (exists s rest, args = Some (VString s) :: rest /\
                  Exists (fun c => (0x7F < c)%N) s).

(** * Stand-ins for the absent collaborators

    Concrete implementations of the interfaces, used to run the model
    on inputs. *)

Definition digit_value (c : ascii) : option N :=
  let n := N_of_ascii c in
  if ((48 <=? n) && (n <=? 57))%N then Some (n - 48)%N else None.

Definition hex_value (c : ascii) : option N :=
  let n := N_of_ascii c in
  if ((48 <=? n) && (n <=? 57))%N then Some (n - 48)%N
  else if ((97 <=? n) && (n <=? 102))%N then Some (n - 87)%N
  else if ((65 <=? n) && (n <=? 70))%N then Some (n - 55)%N
  else None.

Fixpoint number_in_base (base : N) (digit : ascii -> option N)
    (s : std_string) (acc : N) : option N :=
  match s with
  | [] => Some acc
  | c :: rest =>
      match digit c with
      | Some d => number_in_base base digit rest (acc * base + d)%N
      | None => None
      end
  end.

Definition parse_octet (s : std_string) : option byte :=
  if nonempty s && (length s <=? 3)
  then match number_in_base 10 digit_value s 0 with
       | Some n => Byte.of_N n
       | None => None
       end
  else None.

Definition parse_ipv4 (s : std_string) : option IPAddressNumber :=
  match map parse_octet (split_on "."%char s) with
  | [Some a; Some b; Some c; Some d] => Some [a; b; c; d]
  | _ => None
  end.

Definition parse_group (s : std_string) : option (list byte) :=
  if nonempty s && (length s <=? 4)
  then match number_in_base 16 hex_value s 0 with
       | Some n =>
           match Byte.of_N (n / 256), Byte.of_N (n mod 256) with
           | Some hi, Some lo => Some [hi; lo]
           | _, _ => None
           end
       | None => None
       end
  else None.

Fixpoint parse_groups (segs : list std_string) : option (list byte) :=
  match segs with
  | [] => Some []
  | seg :: rest =>
      match parse_group seg, parse_groups rest with
      | Some g, Some gs => Some (g ++ gs)
      | _, _ => None
      end
  end.

(** A [::] at either end shows as two empty segments; one of them is
    dropped, and a single [:] at an end is refused. *)
Definition trim_end (segs : list std_string) : option (list std_string) :=
  match segs with
  | [] :: [] :: rest => Some ([] :: rest)
  | [] :: _ => None
  | _ => Some segs
  end.

(** The groups before and after the one empty segment, if there is
    one. *)
Fixpoint around_gap (segs : list std_string)
    : list std_string * option (list std_string) :=
  match segs with
  | [] => ([], None)
  | [] :: rest => ([], Some rest)
  | seg :: rest =>
      let (before, after) := around_gap rest in (seg :: before, after)
  end.

Definition parse_ipv6 (s : std_string) : option IPAddressNumber :=
  match trim_end (split_on ":"%char s) with
  | None => None
  | Some segs =>
      match trim_end (rev segs) with
      | None => None
      | Some rsegs =>
          match around_gap (rev rsegs) with
          | (groups, None) =>
              if length groups =? 8 then parse_groups groups else None
          | (before, Some after) =>
              match parse_groups before, parse_groups after with
              | Some hi, Some lo =>
                  if length hi + length lo <=? 14
                  then Some (hi ++ repeat x00 (16 - length hi - length lo)
                                ++ lo)
                  else None
              | _, _ => None
              end
          end
      end
  end.

(** Modelled from the spec: [ParseIPLiteralToNumber] of [net_util] is
    declared in [net_util.h] and defined outside this file.  Section
    4.3: "parse each token as an IPv4 or IPv6 literal", the parsed
    numeric form being 4 or 16 bytes.  Dotted decimal for IPv4;
    colon-separated hexadecimal groups with one optional [::] for
    IPv6. *)
Definition model_ParseIPLiteralToNumber (ip_literal : std_string)
    : option IPAddressNumber :=
  if in_chars ":"%char ip_literal then parse_ipv6 ip_literal
  else parse_ipv4 ip_literal.

(** Modelled from the spec: [ParseCIDRBlock] of [net_util] is declared
    in [net_util.h] and defined outside this file.  Section 4.3: "parse
    prefix as address/bitlength". *)
Definition model_ParseCIDRBlock (cidr_literal : std_string)
    : option (IPAddressNumber * nat) :=
  match split_on "/"%char cidr_literal with
  | [address; bits] =>
      match model_ParseIPLiteralToNumber address,
            (if nonempty bits
             then number_in_base 10 digit_value bits 0 else None) with
      | Some ip_number, Some n =>
          if (N.to_nat n <=? 8 * length ip_number)
          then Some (ip_number, N.to_nat n) else None
      | _, _ => None
      end
  | _ => None
  end.

(** A small engine.  The isolate remembers the scripts it ran, latest
    first.  A source starting with ["!"] does not compile; a script
    starting with ["f"] defines the entry function, whose calls return
    the rest of the source (or [undefined] when there is none). *)
Definition toy_v8 : V8 := {|
  Isolate := list String16;
  Script := String16;
  Isolate_New := [];
  Context_New := fun _ _ => [];
  NewFromUtf8 := map N_of_ascii;
  Script_Compile := fun _ source _ =>
    match source with
    | 33%N :: _ => Caught (Some (String16_of_literal "SyntaxError"))
    | _ => Normal source
    end;
  Script_Run := fun isolate code => (code :: isolate, [], Normal VUndefined);
  Global_Get := fun isolate _ =>
    match isolate with
    | (102%N :: _) :: _ => VFunction 0
    | _ => VUndefined
    end;
  Function_Call := fun isolate _ _ =>
    (isolate, [],
     match isolate with
     | (_ :: c :: body) :: _ => Normal (VString (c :: body))
     | _ => Normal VUndefined
     end);
  LowMemoryNotification := fun isolate => isolate
|}.

Definition toy_script_h : ProxyResolverScript := {|
  PROXY_RESOLVER_SCRIPT := lit "var isPlainHostName;";
  PROXY_RESOLVER_SCRIPT_EX := lit "var isResolvableEx;"
|}.

(** Bindings that resolve ["localhost"] only. *)
Definition toy_bindings : ProxyResolverJSBindings := {|
  MyIpAddress := (true, lit "192.168.1.1");
  MyIpAddressEx := (true, lit "192.168.1.1;fe80::1");
  DnsResolve := fun host =>
    if list_eq_dec ascii_dec host (lit "localhost")
    then (true, lit "127.0.0.1") else (false, []);
  DnsResolveEx := fun host =>
    if list_eq_dec ascii_dec host (lit "localhost")
    then (true, lit "127.0.0.1;::1") else (false, [])
|}.

(** [SetPacScript] called with each script in turn: the statuses and
    the resolver afterwards. *)
Fixpoint SetPacScripts {v8 : V8} {script_h : ProxyResolverScript}
    (this : ProxyResolverV8) (scripts : list String16)
    : list net_error * ProxyResolverV8 :=
  match scripts with
  | [] => ([], this)
  | script_data :: rest =>
      let '(rv, this, _) := SetPacScript this script_data in
      let (rvs, this) := SetPacScripts this rest in
      (rv :: rvs, this)
  end.

(** * The rest of the file

    The callbacks no claim above is about, the conversions they use,
    the constructor, and sequences of calls on one resolver. *)

Section Callbacks.
Context {v8 : V8} {js_bindings_ : ProxyResolverJSBindings}.

(** [v8::String::WriteUtf8] called without a capacity: the bytes V8
    writes before the terminating NUL. *)
Variable WriteUtf8 : String16 -> std_string.

(** [v8::Value::ToString]: the string, or the exception thrown by the
    object's [toString()], in which case the handle returned is
    empty. *)
Variable ToString : Value -> String16 + Value.

(** [V8StringToUTF8] with [WriteInto] (lines 142-155): [result] gets
    [Length()] characters, all NUL, in a buffer of [Length() + 1]
    bytes, and V8 writes its bytes and a NUL over them.  [Crashed] is
    a write beyond that buffer. *)
Definition V8StringToUTF8 (s : String16) : outcome std_string :=
  let written := WriteUtf8 s in
  if length written <=? length s
  then Returned (written ++ repeat NUL (length s - length written))
  else Crashed.

(** [V8ObjectToUTF16String] (lines 194-206): the string, or [false]
    together with the exception left pending, if any. *)
Definition V8ObjectToUTF16String (object : option Value)
    : String16 + option Value :=
  match object with
  | None => inr None                              (* object.IsEmpty() *)
  | Some v =>
      match ToString v with
      | inr exception => inr (Some exception)     (* str_object.IsEmpty() *)
      | inl str_object => inl (V8StringToUTF16 str_object)
      end
  end.

(** [AlertCallback] (lines 553-572), with what the listener
    received. *)
Definition AlertCallback (args : FunctionCallbackInfo)
    : CallbackResult * list Event :=
  match args with
  | [] =>
      (MkCallbackResult Unset None,
       [AlertMessage (String16_of_literal "undefined")])
  | arg0 :: _ =>
      match V8ObjectToUTF16String arg0 with
      | inr pending => (MkCallbackResult Unset pending, [])
      | inl message => (MkCallbackResult Unset None, [AlertMessage message])
      end
  end.

(** [MyIpAddressCallback] (lines 575-596). *)
Definition MyIpAddressCallback (args : FunctionCallbackInfo)
    : CallbackResult :=
  let (success, result) := MyIpAddress in
  if negb success
  then MkCallbackResult
         (SetTo (ASCIILiteralToV8String (lit "127.0.0.1"))) None
  else MkCallbackResult (SetTo (ASCIIStringToV8String result)) None.

(** [MyIpAddressExCallback] (lines 599-618). *)
Definition MyIpAddressExCallback (args : FunctionCallbackInfo)
    : CallbackResult :=
  let (success, ip_address_list) := MyIpAddressEx in
  let ip_address_list := if negb success then [] else ip_address_list in
  MkCallbackResult (SetTo (ASCIIStringToV8String ip_address_list)) None.

Variable ParseIPLiteralToNumber : std_string -> option IPAddressNumber.
Variable ParseCIDRBlock : std_string -> option (IPAddressNumber * nat).
Variable IPNumberMatchesPrefix :
  IPAddressNumber -> IPAddressNumber -> nat -> bool.


(** [IsInNetExCallback] (lines 693-704).  The outer [option] is the
    fuel of [IsInNetEx]. *)
Definition IsInNetExCallback (args : FunctionCallbackInfo)
    : option (outcome CallbackResult) :=
  match args with
  | Some (VString s0) :: Some (VString s1) :: _ =>
      match V8StringToUTF8 s0 with
      | Crashed => Some Crashed
      | Returned ip_address =>
          match V8StringToUTF8 s1 with
          | Crashed => Some Crashed
          | Returned ip_prefix =>
              b <- IsInNetEx ParseIPLiteralToNumber ParseCIDRBlock
                     IPNumberMatchesPrefix ip_address ip_prefix ;;
              Some (Returned (MkCallbackResult (SetTo (VBoolean b)) None))
          end
      end
  | _ => Some (Returned (MkCallbackResult (SetTo VNull) None))
  end.

End Callbacks.

(** What the constructor asks of the V8 platform. *)
Inductive PlatformCall : Type :=
| CreateDefaultPlatform
| InitializePlatform
| V8_Initialize.

(** The constructor (lines 717-728): the new resolver, the static
    [initialized_for_this_process_] afterwards and the platform calls
    made. *)
Definition ProxyResolverV8_construct {v8 : V8}
    (initialized_for_this_process_ : bool)
    : ProxyResolverV8 * bool * list PlatformCall :=
  if negb initialized_for_this_process_
  then (MkProxyResolverV8 None, true,
        [CreateDefaultPlatform; InitializePlatform; V8_Initialize])
  else (MkProxyResolverV8 None, initialized_for_this_process_, []).

(** [n] resolvers constructed one after the other in one process. *)
Fixpoint construct_many {v8 : V8} (n : nat)
    (initialized_for_this_process_ : bool) : bool * list PlatformCall :=
  match n with
  | O => (initialized_for_this_process_, [])
  | S n' =>
      let '(_, initialized, calls) :=
        ProxyResolverV8_construct initialized_for_this_process_ in
      let (initialized, calls') := construct_many n' initialized in
      (initialized, calls ++ calls')
  end.

(** A call on the public surface of one resolver. *)
Inductive Call : Type :=
| CallSetPacScript (script_data : String16)
| CallGetProxyForURL (spec host : String16)
| CallPurgeMemory.

(** The calls made in order on one resolver, [results] being the
    caller's result string. *)
Fixpoint run_calls {v8 : V8} {script_h : ProxyResolverScript}
    (this : ProxyResolverV8) (results : String16) (calls : list Call)
    : outcome (ProxyResolverV8 * String16) :=
  match calls with
  | [] => Returned (this, results)
  | CallSetPacScript script_data :: rest =>
      let '(_, this, _) := SetPacScript this script_data in
      run_calls this results rest
  | CallGetProxyForURL spec host :: rest =>
      match GetProxyForURL this spec host results with
      | Crashed => Crashed
      | Returned (_, results, _, this) => run_calls this results rest
      end
  | CallPurgeMemory :: rest =>
      match PurgeMemory this with
      | Crashed => Crashed
      | Returned (this, _) => run_calls this results rest
      end
  end.

(** The script of the last [SetPacScript] among the calls. *)
Fixpoint last_script (calls : list Call) : option String16 :=
  match calls with
  | [] => None
  | call :: rest =>
      match last_script rest, call with
      | Some script_data, _ => Some script_data
      | None, CallSetPacScript script_data => Some script_data
      | None, _ => None
      end
  end.

(** [ToString] of the small engine: strings and numbers convert, an
    object's [toString()] throws the object. *)
Definition toy_ToString (v : Value) : String16 + Value :=
  match v with
  | VString s => inl s
  | VNumber n => inl [(48 + n)%N]
  | VObject _ => inr v
  | _ => inl (String16_of_literal "?")
  end.

(** [WriteUtf8] on ASCII strings: one byte per code unit. *)
Definition toy_WriteUtf8 (s : String16) : std_string := map ascii_of_N s.

(** * Properties *)

Unset Implicit Arguments.
#[local] Arguments in_chars : simpl never.
#[local] Arguments lit : simpl never.

(** ** ASCII validation *)

Lemma DoIsStringASCII_Forall (str : String16) :
  DoIsStringASCII str = true <-> Forall is_ascii_unit str.
Proof.
  unfold is_ascii_unit.
  induction str as [|c rest IH]; simpl.
  - split; auto.
  - destruct (N.ltb_spec 0x7F c) as [Hgt|Hle].
    + split; [discriminate|].
      intros H. inversion H; subst. lia.
    + rewrite IH. split.
      * intros H. constructor; assumption.
      * intros H. inversion H; assumption.
Qed.

Lemma DoIsStringASCII_Exists (str : String16) :
  DoIsStringASCII str = false <-> Exists (fun c => (0x7F < c)%N) str.
Proof.
  induction str as [|c rest IH]; simpl.
  - split; [discriminate|]. intros H. inversion H.
  - destruct (N.ltb_spec 0x7F c) as [Hgt|Hle].
    + split; auto.
    + rewrite IH. split.
      * intros H. now apply Exists_cons_tl.
      * intros H. inversion H; subst; [lia|assumption].
Qed.

(** ** RemoveChars is a filter *)

Section RemoveCharsFacts.
Variable chars : std_string.


Lemma find_first_of_skip (pre suf : std_string) :
  find_first_of (pre ++ suf) chars (length pre) =
  option_map (Nat.add (length pre)) (find_first_of suf chars 0).
Proof.
  induction pre as [|c pre IH]; simpl.
  - destruct (find_first_of suf chars 0); reflexivity.
  - rewrite IH. destruct (find_first_of suf chars 0); reflexivity.
Qed.

(** What a search from the start of [suf] finds: nothing, and [suf]
    is kept whole; or the first character to remove, with kept
    characters before it. *)
Lemma find_first_of_0 (suf : std_string) :
  match find_first_of suf chars 0 with
  | None =>
      filter (kept chars) suf = suf /\
      existsb (fun c => in_chars c chars) suf = false
  | Some k =>
      exists a c b,
        suf = a ++ c :: b /\ length a = k /\
        filter (kept chars) a = a /\ in_chars c chars = true
  end.
Proof.
  induction suf as [|c rest IH]; simpl.
  - auto.
  - unfold kept in *.
    destruct (in_chars c chars) eqn:Hc; simpl.
    + exists [], c, rest. auto.
    + destruct (find_first_of rest chars 0) as [k|]; simpl.
      * destruct IH as (a & c' & b & -> & <- & Ha & Hc').
        exists (c :: a), c', b. simpl.
        rewrite Hc, Ha. auto.
      * destruct IH as [-> ->]. auto.
Qed.

Lemma replace1_middle (pre b : std_string) (c : ascii) :
  replace1 (pre ++ c :: b) (length pre) = pre ++ b.
Proof.
  induction pre as [|x pre IH]; simpl; [reflexivity|].
  now rewrite IH.
Qed.

Lemma RemoveCharsT_loop_spec (fuel : nat) :
  forall (pre suf : std_string) (removed : bool),
    filter (kept chars) pre = pre ->
    length suf <= fuel ->
    RemoveCharsT_loop fuel chars (pre ++ suf)
      (find_first_of (pre ++ suf) chars (length pre)) removed =
    Some (removed || existsb (fun c => in_chars c chars) suf,
          pre ++ filter (kept chars) suf).
Proof.
  induction fuel as [|fuel IH]; intros pre suf removed Hpre Hlen.
  - destruct suf; [|simpl in Hlen; lia].
    rewrite find_first_of_skip. simpl. now rewrite orb_false_r.
  - rewrite find_first_of_skip.
    pose proof (find_first_of_0 suf) as Hfind.
    destruct (find_first_of suf chars 0) as [k|]; simpl.
    + destruct Hfind as (a & c & b & -> & <- & Ha & Hc).
      replace (length pre + length a) with (length (pre ++ a))
        by (rewrite length_app; reflexivity).
      rewrite app_assoc, replace1_middle.
      rewrite IH.
      * rewrite filter_app, existsb_app. simpl.
        unfold kept at 3. rewrite Hc. simpl.
        rewrite !orb_true_r, Ha, app_assoc. reflexivity.
      * rewrite filter_app, Hpre, Ha. reflexivity.
      * rewrite length_app in Hlen. simpl in Hlen. lia.
    + destruct Hfind as [-> ->]. now rewrite orb_false_r.
Qed.

(** The loop terminates within its fuel; it removes exactly the
    characters of [chars] and reports whether there were any. *)
Lemma RemoveCharsT_spec (input : std_string) :
  RemoveCharsT input chars =
  Some (existsb (fun c => in_chars c chars) input, filter (kept chars) input).
Proof.
  unfold RemoveCharsT.
  apply (RemoveCharsT_loop_spec (length input) [] input false);
    [reflexivity|lia].
Qed.
End RemoveCharsFacts.

Lemma RemoveChars_strip (input : std_string) :
  RemoveChars input kSpaceTab =
  Some (existsb (fun c => in_chars c kSpaceTab) input, strip input).
Proof. apply RemoveCharsT_spec. Qed.

(** ** The ordering of IPAddress *)

Lemma to_N_inj (a b : byte) : Byte.to_N a = Byte.to_N b -> a = b.
Proof.
  intros H. pose proof (Byte.of_to_N a) as Ha.
  rewrite H, Byte.of_to_N in Ha. now inversion Ha.
Qed.

Lemma lex_lt_irrefl (a : list byte) : ~ lex_lt a a.
Proof.
  induction a as [|b r IH]; intros H; inversion H; subst; [lia|auto].
Qed.

Lemma lex_lt_trans (a b c : list byte) :
  lex_lt a b -> lex_lt b c -> lex_lt a c.
Proof.
  intros Hab. revert c.
  induction Hab as [b1 b2 r1 r2 Hlt|b r1 r2 Hab IH]; intros c Hbc;
    inversion Hbc; subst.
  - apply lex_lt_here. lia.
  - now apply lex_lt_here.
  - now apply lex_lt_here.
  - apply lex_lt_next. auto.
Qed.

Lemma lex_lt_length_total (a b : list byte) :
  length a = length b -> lex_lt a b \/ a = b \/ lex_lt b a.
Proof.
  revert b. induction a as [|x a IH]; intros [|y b] Hlen;
    try discriminate; auto.
  simpl in Hlen. injection Hlen as Hlen.
  destruct (N.lt_total (Byte.to_N x) (Byte.to_N y)) as [Hlt|[Heq|Hgt]].
  - left. now apply lex_lt_here.
  - apply to_N_inj in Heq. subst y.
    destruct (IH b Hlen) as [H|[H|H]].
    + left. now apply lex_lt_next.
    + right; left. now subst.
    + right; right. now apply lex_lt_next.
  - right; right. now apply lex_lt_here.
Qed.

(** [memcmp] is negative exactly on lexicographically smaller
    blocks. *)
Lemma memcmp_negative (a b : list byte) :
  length a = length b ->
  (memcmp a b (length a) <? 0)%Z = true <-> lex_lt a b.
Proof.
  revert b. induction a as [|x a IH]; intros [|y b] Hlen;
    try discriminate; simpl.
  - split; [discriminate|]. intros H; inversion H.
  - simpl in Hlen. injection Hlen as Hlen.
    destruct (Byte.eqb x y) eqn:Hxy.
    + apply Byte.byte_dec_bl in Hxy. subst y.
      rewrite (IH b Hlen). split.
      * intros H. now apply lex_lt_next.
      * intros H. inversion H; subst; [lia|assumption].
    + apply Byte.eqb_false in Hxy.
      rewrite Z.ltb_lt. split.
      * intros H. apply lex_lt_here. lia.
      * intros H. inversion H; subst; [lia|congruence].
Qed.

(** [operator<] decides [sorts_before]. *)
Lemma IPAddress_lt_sorts_before (a b : IPAddress) :
  IPAddress_lt a b = true <->
  sorts_before (ip_address_number a) (ip_address_number b).
Proof.
  unfold IPAddress_lt, sorts_before.
  destruct (Nat.eqb_spec (length (ip_address_number a))
                         (length (ip_address_number b))) as [Heq|Hne]; simpl.
  - rewrite (memcmp_negative _ _ Heq). split.
    + auto.
    + intros [H|[_ H]]; [lia|assumption].
  - rewrite Nat.ltb_lt. split.
    + auto.
    + intros [H|[H _]]; [assumption|contradiction].
Qed.

Lemma sorts_before_irrefl (a : IPAddressNumber) : ~ sorts_before a a.
Proof.
  intros [H|[_ H]]; [lia|exact (lex_lt_irrefl a H)].
Qed.

Lemma sorts_before_trans (a b c : IPAddressNumber) :
  sorts_before a b -> sorts_before b c -> sorts_before a c.
Proof.
  unfold sorts_before.
  intros [Hab|[Hab Lab]] [Hbc|[Hbc Lbc]].
  - left; lia.
  - left; lia.
  - left; lia.
  - right. split; [lia|]. eapply lex_lt_trans; eassumption.
Qed.

Lemma sorts_before_total (a b : IPAddressNumber) :
  sorts_before a b \/ a = b \/ sorts_before b a.
Proof.
  unfold sorts_before.
  destruct (Nat.lt_total (length a) (length b)) as [H|[H|H]];
    [auto| |auto].
  destruct (lex_lt_length_total a b H) as [L|[L|L]]; auto.
Qed.

Lemma ascending_trans (a b c : IPAddress) :
  ascending a b -> ascending b c -> ascending a c.
Proof.
  unfold ascending. intros [Hab|Hab] [Hbc|Hbc].
  - left. eapply sorts_before_trans; eassumption.
  - left. now rewrite <- Hbc.
  - left. now rewrite Hab.
  - right. congruence.
Qed.

(** What [operator<] answering [false] means. *)
Lemma IPAddress_lt_false (a b : IPAddress) :
  IPAddress_lt a b = false -> ascending b a.
Proof.
  intros H. unfold ascending.
  destruct (sorts_before_total (ip_address_number a) (ip_address_number b))
    as [Hab|[Hab|Hab]]; auto.
  apply IPAddress_lt_sorts_before in Hab. congruence.
Qed.

(** ** std::stable_sort on IPAddress *)

Lemma insert_sorted_perm (x : IPAddress) (l : list IPAddress) :
  Permutation (x :: l) (insert_sorted IPAddress_lt x l).
Proof.
  induction l as [|y ys IH]; simpl; [reflexivity|].
  destruct (IPAddress_lt y x); [|reflexivity].
  rewrite perm_swap. now apply perm_skip.
Qed.

Lemma stable_sort_perm (l : list IPAddress) :
  Permutation l (stable_sort IPAddress_lt l).
Proof.
  induction l as [|x xs IH]; simpl; [reflexivity|].
  rewrite <- insert_sorted_perm. now apply perm_skip.
Qed.

Lemma insert_sorted_sorted (x : IPAddress) (l : list IPAddress) :
  StronglySorted ascending l ->
  StronglySorted ascending (insert_sorted IPAddress_lt x l).
Proof.
  induction 1 as [|y ys Hs IH Hall]; simpl.
  - repeat constructor.
  - destruct (IPAddress_lt y x) eqn:Hyx.
    + constructor; [assumption|].
      apply (Permutation_Forall (insert_sorted_perm x ys)).
      constructor; [|assumption].
      left. now apply IPAddress_lt_sorts_before.
    + apply IPAddress_lt_false in Hyx.
      constructor; [now constructor|].
      constructor; [assumption|].
      eapply Forall_impl; [|exact Hall].
      intros z Hz. eapply ascending_trans; eassumption.
Qed.

Lemma stable_sort_sorted (l : list IPAddress) :
  StronglySorted ascending (stable_sort IPAddress_lt l).
Proof.
  induction l as [|x xs IH]; simpl; [constructor|].
  now apply insert_sorted_sorted.
Qed.

(** An inserted element only passes elements of another number. *)
Lemma insert_sorted_filter (n : IPAddressNumber) (x : IPAddress)
    (l : list IPAddress) :
  filter (has_number n) (insert_sorted IPAddress_lt x l) =
  filter (has_number n) (x :: l).
Proof.
  induction l as [|y ys IH]; simpl; [reflexivity|].
  destruct (IPAddress_lt y x) eqn:Hyx; [|reflexivity].
  simpl. rewrite IH. simpl.
  apply IPAddress_lt_sorts_before in Hyx.
  unfold has_number.
  destruct (list_eq_dec byte_eq_dec (ip_address_number x) n) as [Hx|Hx];
    destruct (list_eq_dec byte_eq_dec (ip_address_number y) n) as [Hy|Hy];
    try reflexivity.
  exfalso. rewrite Hx, Hy in Hyx. exact (sorts_before_irrefl n Hyx).
Qed.

Lemma stable_sort_filter (n : IPAddressNumber) (l : list IPAddress) :
  filter (has_number n) (stable_sort IPAddress_lt l) =
  filter (has_number n) l.
Proof.
  induction l as [|x xs IH]; simpl; [reflexivity|].
  rewrite insert_sorted_filter. simpl. now rewrite IH.
Qed.

Lemma stable_sort_stably_sorted (l : list IPAddress) :
  stably_sorted l (stable_sort IPAddress_lt l).
Proof.
  split; [apply stable_sort_perm|].
  split; [apply stable_sort_sorted|].
  intros n. apply stable_sort_filter.
Qed.

Lemma has_number_true (n : IPAddressNumber) (a : IPAddress) :
  has_number n a = true <-> ip_address_number a = n.
Proof.
  unfold has_number.
  destruct (list_eq_dec byte_eq_dec (ip_address_number a) n);
    split; auto; discriminate.
Qed.

Lemma ascending_antisym (a b : IPAddress) :
  ascending a b -> ascending b a ->
  ip_address_number a = ip_address_number b.
Proof.
  intros [Hab|Hab] [Hba|Hba]; auto.
  exfalso. apply (sorts_before_irrefl (ip_address_number a)).
  eapply sorts_before_trans; eassumption.
Qed.

Lemma ascending_head (a b : IPAddress) (t l : list IPAddress) :
  StronglySorted ascending (a :: t) ->
  Permutation (a :: t) (b :: l) ->
  ascending a b.
Proof.
  intros Hs Hp. apply StronglySorted_inv in Hs. destruct Hs as [_ Hall].
  assert (Hin : In b (a :: t)).
  { apply (Permutation_in b (Permutation_sym Hp)). now left. }
  destruct Hin as [->|Hin].
  - now right.
  - rewrite Forall_forall in Hall. now apply Hall.
Qed.

(** The order a stable sort produces is the only one: any routine
    meeting the contract of [std::stable_sort] returns the list that
    [stable_sort] returns. *)
Lemma stably_sorted_unique (addrs l1 l2 : list IPAddress) :
  stably_sorted addrs l1 -> stably_sorted addrs l2 -> l1 = l2.
Proof.
  intros (P1 & S1 & F1) (P2 & S2 & F2).
  assert (P : Permutation l1 l2)
    by (now rewrite <- P1, <- P2).
  assert (F : forall n, filter (has_number n) l1 = filter (has_number n) l2)
    by (intros n; now rewrite F1, F2).
  clear P1 F1 P2 F2 addrs.
  revert l2 S2 P F.
  induction l1 as [|a t1 IH]; intros [|b t2] S2 P F.
  - reflexivity.
  - apply Permutation_nil in P. discriminate.
  - apply Permutation_sym, Permutation_nil in P. discriminate.
  - assert (Hn : ip_address_number a = ip_address_number b).
    { apply ascending_antisym.
      - exact (ascending_head a b t1 t2 S1 P).
      - exact (ascending_head b a t2 t1 S2 (Permutation_sym P)). }
    assert (Hab : a = b).
    { pose proof (F (ip_address_number a)) as Fa. simpl in Fa.
      rewrite (proj2 (has_number_true _ a) eq_refl) in Fa.
      rewrite (proj2 (has_number_true _ b) (eq_sym Hn)) in Fa.
      now injection Fa. }
    subst b. f_equal.
    apply StronglySorted_inv in S1. apply StronglySorted_inv in S2.
    apply IH.
    + apply S1.
    + apply S2.
    + now apply Permutation_cons_inv in P.
    + intros n. specialize (F n). simpl in F.
      destruct (has_number n a); [now injection F|exact F].
Qed.

(** ** strtok yields the non-empty segments *)

Lemma in_chars_semicolon (c : ascii) :
  in_chars c (lit ";") = Ascii.eqb c ";"%char.
Proof. unfold in_chars, lit. simpl. apply orb_false_r. Qed.

Lemma split_on_not_nil (d : ascii) (s : std_string) : split_on d s <> [].
Proof.
  destruct s as [|c rest]; simpl; [discriminate|].
  destruct (Ascii.eqb c d); [discriminate|].
  destruct (split_on d rest); discriminate.
Qed.

(** The token taken from the front of [s] is its first segment; what
    follows starts at the delimiter. *)
Lemma take_token_split (s : std_string) :
  match take_token s (lit ";") with
  | (tok, []) => split_on ";"%char s = [tok]
  | (tok, d :: rest) =>
      split_on ";"%char s = tok :: split_on ";"%char rest /\
      length rest < length s
  end.
Proof.
  induction s as [|c r IH]; simpl; [reflexivity|].
  rewrite in_chars_semicolon.
  destruct (Ascii.eqb c ";"%char); [auto|].
  destruct (take_token r (lit ";")) as [tok [|d rest]].
  - now rewrite IH.
  - destruct IH as [-> Hlen]. split; [reflexivity|lia].
Qed.

Lemma strtok_tokens (s : std_string) :
  match filter nonempty (split_on ";"%char s) with
  | [] => strtok s (lit ";") = None
  | tok :: toks =>
      exists save,
        strtok s (lit ";") = Some (tok, save) /\
        filter nonempty (split_on ";"%char save) = toks /\
        length save < length s
  end.
Proof.
  induction s as [|c r IH]; [reflexivity|].
  unfold strtok. simpl skip_delims. simpl split_on.
  rewrite in_chars_semicolon.
  destruct (Ascii.eqb c ";"%char) eqn:Hc.
  - simpl filter. fold (strtok r (lit ";")).
    destruct (filter nonempty (split_on ";"%char r)) as [|tok toks];
      [exact IH|].
    destruct IH as (save & Htok & Hrest & Hlen).
    exists save. simpl. auto with arith.
  - simpl take_token. rewrite in_chars_semicolon, Hc.
    pose proof (take_token_split r) as Htake.
    pose proof (split_on_not_nil ";"%char r) as Hnil.
    destruct (take_token r (lit ";")) as [tok [|d rest]].
    + rewrite Htake. simpl. exists []. simpl. auto with arith.
    + destruct Htake as [-> Hlen]. simpl.
      exists rest. simpl. auto with arith.
Qed.

Section SortIpAddressListFacts.
Variable parse : std_string -> option IPAddressNumber.

(** The loop parses the tokens in order, stops with [false] at the
    first that fails, and never runs out of fuel. *)
Lemma SortIpAddressList_loop_spec (fuel : nat) :
  forall (s : std_string) (ip_vector : list IPAddress),
    length s <= fuel ->
    SortIpAddressList_loop parse fuel (strtok s (lit ";")) ip_vector =
    Some match parse_all parse (filter nonempty (split_on ";"%char s)) with
         | None => ReturnFalse
         | Some addrs => LoopDone (ip_vector ++ addrs)
         end.
Proof.
  induction fuel as [|fuel IH]; intros s ip_vector Hlen;
    pose proof (strtok_tokens s) as Htok;
    destruct (filter nonempty (split_on ";"%char s)) as [|tok toks].
  - rewrite Htok. simpl. now rewrite app_nil_r.
  - destruct Htok as (save & _ & _ & Hlt). lia.
  - rewrite Htok. simpl. now rewrite app_nil_r.
  - destruct Htok as (save & -> & <- & Hlt). simpl.
    destruct (parse tok) as [ip_num|]; [|reflexivity].
    rewrite IH by lia.
    destruct (parse_all parse (filter nonempty (split_on ";"%char save)));
      [|reflexivity].
    now rewrite <- app_assoc.
Qed.

Lemma SortIpAddressList_join_spec (ip_vector : list IPAddress) :
  forall (i : nat) (acc : std_string),
    SortIpAddressList_join i ip_vector acc =
    match ip_vector with
    | [] => acc
    | _ :: _ =>
        acc ++ (if 0 <? i then lit ";" else [])
            ++ join (map string_value ip_vector)
    end.
Proof.
  induction ip_vector as [|a rest IH]; intros i acc; [reflexivity|].
  simpl SortIpAddressList_join. rewrite IH.
  destruct rest as [|b rest].
  - simpl. destruct (0 <? i); now rewrite <- ?app_assoc.
  - change (0 <? S i) with true. cbv iota.
    change (join (map string_value (a :: b :: rest)))
      with (string_value a ++ lit ";"
              ++ join (map string_value (b :: rest))).
    destruct (0 <? i); now rewrite <- ?app_assoc.
Qed.

Lemma c_str_length (s : std_string) : length (c_str s) <= length s.
Proof.
  induction s as [|c r IH]; simpl; [lia|].
  destruct (Ascii.eqb c NUL); simpl; lia.
Qed.

Lemma parse_all_nil (toks : list std_string) :
  parse_all parse toks = Some [] -> toks = [].
Proof.
  destruct toks as [|tok rest]; [reflexivity|]. simpl.
  destruct (parse tok); [|discriminate].
  destruct (parse_all parse rest); discriminate.
Qed.

Lemma stable_sort_single (a : IPAddress) :
  stable_sort IPAddress_lt [a] = [a].
Proof. reflexivity. Qed.

(** [SortIpAddressList] as a function of the tokens of its input:
    it always returns; it fails, with an empty output, when there is
    no token or one of them does not parse, and otherwise returns
    the tokens joined in sorted order. *)
Lemma SortIpAddressList_spec (input : std_string) :
  SortIpAddressList parse input =
  Some match tokens input with
       | [] => (false, [])
       | toks =>
           match parse_all parse toks with
           | None => (false, [])
           | Some addrs =>
               (true,
                join (map string_value (stable_sort IPAddress_lt addrs)))
           end
       end.
Proof.
  unfold SortIpAddressList, tokens.
  rewrite RemoveChars_strip. unfold bind at 1. cbv beta iota.
  destruct (strip input) as [|c cleaned]; [reflexivity|].
  rewrite SortIpAddressList_loop_spec by apply c_str_length.
  unfold bind.
  generalize (filter nonempty (split_on ";"%char (c_str (c :: cleaned)))).
  intros [|tok toks]; [reflexivity|].
  destruct (parse_all parse (tok :: toks)) as [addrs|] eqn:Hparse;
    [|reflexivity].
  simpl app.
  destruct addrs as [|a addrs];
    [apply parse_all_nil in Hparse; discriminate|].
  rewrite SortIpAddressList_join_spec.
  destruct addrs as [|b addrs]; [reflexivity|].
  change (1 <? length (a :: b :: addrs)) with true. cbv iota.
  pose proof (stable_sort_perm (a :: b :: addrs)) as Hperm.
  destruct (stable_sort IPAddress_lt (a :: b :: addrs)) eqn:Hsort.
  - apply Permutation_sym, Permutation_nil in Hperm. discriminate.
  - reflexivity.
Qed.
End SortIpAddressListFacts.

(** ** Joining and splitting *)

Lemma parse_all_Some (parse : std_string -> option IPAddressNumber)
    (toks : list std_string) :
  forall addrs,
    parse_all parse toks = Some addrs ->
    map string_value addrs = toks /\
    Forall (fun a => parse (string_value a) = Some (ip_address_number a))
           addrs.
Proof.
  induction toks as [|tok rest IH]; simpl; intros addrs H.
  - injection H as <-. split; constructor.
  - destruct (parse tok) as [ip_num|] eqn:Htok; [|discriminate].
    destruct (parse_all parse rest) as [l|]; [|discriminate].
    injection H as <-. destruct (IH l eq_refl) as [Hmap Hall].
    simpl. rewrite Hmap. split; [reflexivity|].
    constructor; assumption.
Qed.

Lemma parse_all_None (parse : std_string -> option IPAddressNumber)
    (toks : list std_string) (tok : std_string) :
  In tok toks -> parse tok = None -> parse_all parse toks = None.
Proof.
  induction toks as [|t rest IH]; simpl; [contradiction|].
  intros [->|Hin] Hnone.
  - now rewrite Hnone.
  - rewrite (IH Hin Hnone). now destruct (parse t).
Qed.

Lemma plain_app (a b : std_string) : plain a -> plain b -> plain (a ++ b).
Proof.
  intros Ha Hb c Hin. apply in_app_or in Hin. destruct Hin; auto.
Qed.

Lemma strip_plain (s : std_string) :
  (forall c, In c s -> in_chars c kSpaceTab = false) -> strip s = s.
Proof.
  unfold strip, kept.
  induction s as [|c r IH]; intros H; simpl; [reflexivity|].
  rewrite (H c (or_introl eq_refl)). simpl.
  rewrite IH; [reflexivity|]. intros c' Hin. apply H. now right.
Qed.

Lemma c_str_plain (s : std_string) :
  (forall c, In c s -> Ascii.eqb c NUL = false) -> c_str s = s.
Proof.
  induction s as [|c r IH]; intros H; simpl; [reflexivity|].
  rewrite (H c (or_introl eq_refl)).
  rewrite IH; [reflexivity|]. intros c' Hin. apply H. now right.
Qed.

Lemma split_on_segment (seg rest : std_string) :
  plain seg ->
  split_on ";"%char (seg ++ lit ";" ++ rest) =
  seg :: split_on ";"%char rest.
Proof.
  change (lit ";" ++ rest) with (";"%char :: rest).
  induction seg as [|c r IH]; intros Hplain.
  - reflexivity.
  - simpl. destruct (Hplain c (or_introl eq_refl)) as [Hc _].
    rewrite in_chars_semicolon in Hc. rewrite Hc.
    rewrite IH; [reflexivity|]. intros c' Hin. apply Hplain. now right.
Qed.

Lemma split_on_last (seg : std_string) :
  plain seg -> split_on ";"%char seg = [seg].
Proof.
  induction seg as [|c r IH]; intros Hplain; [reflexivity|].
  simpl. destruct (Hplain c (or_introl eq_refl)) as [Hc _].
  rewrite in_chars_semicolon in Hc. rewrite Hc.
  rewrite IH; [reflexivity|]. intros c' Hin. apply Hplain. now right.
Qed.

Lemma split_on_join (seg : std_string) (segs : list std_string) :
  Forall plain (seg :: segs) ->
  split_on ";"%char (join (seg :: segs)) = seg :: segs.
Proof.
  revert seg. induction segs as [|s rest IH]; intros seg Hall.
  - apply split_on_last. now inversion Hall.
  - change (join (seg :: s :: rest))
      with (seg ++ lit ";" ++ join (s :: rest)).
    inversion Hall as [|? ? Hseg Hrest]; subst.
    rewrite (split_on_segment _ _ Hseg). now rewrite IH.
Qed.

Lemma join_harmless (segs : list std_string) :
  Forall plain segs ->
  forall c, In c (join segs) ->
    in_chars c kSpaceTab = false /\ Ascii.eqb c NUL = false.
Proof.
  induction segs as [|seg rest IH]; intros Hall c Hin; [contradiction|].
  inversion Hall as [|? ? Hseg Hrest]; subst.
  destruct rest as [|s rest].
  - now apply Hseg.
  - change (join (seg :: s :: rest))
      with (seg ++ lit ";" ++ join (s :: rest)) in Hin.
    apply in_app_or in Hin. destruct Hin as [Hin|Hin]; [now apply Hseg|].
    apply in_app_or in Hin. destruct Hin as [Hin|Hin]; [|now apply IH].
    destruct Hin as [<-|[]]. split; reflexivity.
Qed.

(** The tokens of a joined list are its non-empty segments. *)
Lemma tokens_join (segs : list std_string) :
  Forall plain segs -> tokens (join segs) = filter nonempty segs.
Proof.
  intros Hall. unfold tokens.
  rewrite strip_plain by (intros c Hin; now apply (join_harmless segs)).
  rewrite c_str_plain by (intros c Hin; now apply (join_harmless segs)).
  destruct segs as [|seg rest]; [reflexivity|].
  now rewrite split_on_join.
Qed.

(** On an input without NUL the tokens are the non-empty segments of
    the stripped input. *)
Lemma tokens_without_NUL (input : std_string) :
  (forall c, In c input -> Ascii.eqb c NUL = false) ->
  tokens input = filter nonempty (split_on ";"%char (strip input)).
Proof.
  intros H. unfold tokens. rewrite c_str_plain; [reflexivity|].
  intros c Hin. apply H. unfold strip in Hin.
  now apply filter_In in Hin.
Qed.

Lemma filter_nonempty_plain (segs : list std_string) :
  Forall plain segs -> Forall plain (filter nonempty segs).
Proof.
  intros Hall. apply Forall_forall. intros s Hin.
  apply filter_In in Hin. destruct Hin as [Hin _].
  revert s Hin. now apply Forall_forall.
Qed.

Lemma filter_nonempty_idem (segs : list std_string) :
  filter nonempty (filter nonempty segs) = filter nonempty segs.
Proof.
  induction segs as [|s rest IH]; simpl; [reflexivity|].
  destruct s; simpl; now rewrite IH.
Qed.

(** ** SortIpAddressList *)

(** C2.  When SortIpAddressList succeeds, its output is the tokens of
    the input, each in its original text, joined with [";"] in the
    order of a stable ascending sort of their parsed numbers: longer
    numbers (16 bytes, IPv6) before shorter ones (4 bytes, IPv4),
    numbers of one length in lexicographic byte order, equal numbers
    in input order.  In particular ["::1;1.2.3.4"] sorts to itself,
    ["::1"] first, for any parser that reads ["::1"] as 16 bytes and
    ["1.2.3.4"] as 4 bytes. *)
Theorem SortIpAddressList_sorts
    (parse : std_string -> option IPAddressNumber) :
  (forall input output,
      SortIpAddressList parse input = Some (true, output) ->
      exists addrs sorted,
        map string_value addrs = tokens input /\
        Forall (fun a => parse (string_value a) = Some (ip_address_number a))
               addrs /\
        stably_sorted addrs sorted /\
        output = join (map string_value sorted)) /\
  (forall n6 n4,
      parse (lit "::1") = Some n6 -> length n6 = 16 ->
      parse (lit "1.2.3.4") = Some n4 -> length n4 = 4 ->
      SortIpAddressList parse (lit "::1;1.2.3.4") =
      Some (true, lit "::1;1.2.3.4")).
Proof.
  split.
  - intros input output H. rewrite SortIpAddressList_spec in H.
    destruct (tokens input) as [|tok toks] eqn:Htoks; [discriminate|].
    destruct (parse_all parse (tok :: toks)) as [addrs|] eqn:Hparse;
      [|discriminate].
    injection H as <-.
    destruct (parse_all_Some parse _ _ Hparse) as [Hmap Hall].
    exists addrs, (stable_sort IPAddress_lt addrs).
    repeat split; try assumption; apply stable_sort_stably_sorted.
  - intros n6 n4 H6 L6 H4 L4. rewrite SortIpAddressList_spec.
    change (tokens (lit "::1;1.2.3.4")) with [lit "::1"; lit "1.2.3.4"].
    cbn [parse_all]. rewrite H6, H4. cbn [stable_sort insert_sorted].
    unfold IPAddress_lt. cbn [ip_address_number]. rewrite L6, L4.
    reflexivity.
Qed.

Lemma SortIpAddressList_sorts_witness :
  (exists addrs sorted,
      map string_value addrs = tokens (lit "40.1.1.1; ::1;1.2.3.4") /\
      Forall (fun a => model_ParseIPLiteralToNumber (string_value a) =
                       Some (ip_address_number a)) addrs /\
      stably_sorted addrs sorted /\
      lit "::1;1.2.3.4;40.1.1.1" = join (map string_value sorted)) /\
  SortIpAddressList model_ParseIPLiteralToNumber (lit "::1;1.2.3.4") =
  Some (true, lit "::1;1.2.3.4").
Proof.
  split.
  - apply (proj1 (SortIpAddressList_sorts model_ParseIPLiteralToNumber)
             (lit "40.1.1.1; ::1;1.2.3.4")).
    vm_compute. reflexivity.
  - apply (proj2 (SortIpAddressList_sorts model_ParseIPLiteralToNumber)
             (repeat x00 15 ++ [x01]) [x01; x02; x03; x04]);
      vm_compute; reflexivity.
Defined.

(** C3.  SortIpAddressList fails, leaving its output empty, whenever
    the stripped input is empty, or one of its tokens does not parse
    as an IP literal, or it has no token at all; [";"] and [""] both
    fail. *)
Theorem SortIpAddressList_fails
    (parse : std_string -> option IPAddressNumber) :
  (forall input,
      strip input = [] \/
      (exists tok, In tok (tokens input) /\ parse tok = None) \/
      tokens input = [] ->
      SortIpAddressList parse input = Some (false, [])) /\
  SortIpAddressList parse (lit ";") = Some (false, []) /\
  SortIpAddressList parse (lit "") = Some (false, []).
Proof.
  split; [|split; apply SortIpAddressList_spec].
  intros input H. rewrite SortIpAddressList_spec.
  destruct H as [H|[(tok & Hin & Hnone)|H]].
  - unfold tokens. now rewrite H.
  - destruct (tokens input) as [|t ts]; [reflexivity|].
    now rewrite (parse_all_None parse _ _ Hin Hnone).
  - now rewrite H.
Qed.

Lemma SortIpAddressList_fails_witness :
  SortIpAddressList model_ParseIPLiteralToNumber kSpaceTab =
    Some (false, []) /\
  SortIpAddressList model_ParseIPLiteralToNumber (lit "1.2.3.4;1.2.3") =
    Some (false, []) /\
  SortIpAddressList model_ParseIPLiteralToNumber (lit "; ;") =
    Some (false, []).
Proof.
  split; [|split];
    apply (proj1 (SortIpAddressList_fails model_ParseIPLiteralToNumber)).
  - left. vm_compute. reflexivity.
  - right; left. exists (lit "1.2.3"). split; vm_compute; auto.
  - right; right. vm_compute. reflexivity.
Defined.

(** C10.  Empty segments, whether from leading, trailing or
    consecutive [";"], are skipped and never parsed: the result
    depends on the input through its tokens only, and a list gives
    the result of the same list without its empty segments, whatever
    the parser makes of the empty string.  In particular
    ["1.2.3.4;;5.6.7.8"] sorts its two addresses although the empty
    token does not parse. *)
Theorem SortIpAddressList_skips_empty_segments
    (parse : std_string -> option IPAddressNumber) :
  (forall input input',
      tokens input = tokens input' ->
      SortIpAddressList parse input = SortIpAddressList parse input') /\
  (forall segs,
      Forall plain segs ->
      tokens (join segs) = filter nonempty segs /\
      SortIpAddressList parse (join segs) =
      SortIpAddressList parse (join (filter nonempty segs))) /\
  (parse [] = None ->
   parse (lit "1.2.3.4") = Some [x01; x02; x03; x04] ->
   parse (lit "5.6.7.8") = Some [x05; x06; x07; x08] ->
   SortIpAddressList parse (lit "1.2.3.4;;5.6.7.8") =
   Some (true, lit "1.2.3.4;5.6.7.8")).
Proof.
  split; [|split].
  - intros input input' H. rewrite !SortIpAddressList_spec. now rewrite H.
  - intros segs Hall. split; [now apply tokens_join|].
    rewrite !SortIpAddressList_spec, !tokens_join;
      [|now apply filter_nonempty_plain|assumption].
    now rewrite filter_nonempty_idem.
  - intros _ H1 H2. rewrite SortIpAddressList_spec.
    change (tokens (lit "1.2.3.4;;5.6.7.8"))
      with [lit "1.2.3.4"; lit "5.6.7.8"].
    cbn [parse_all]. rewrite H1, H2. reflexivity.
Qed.

Lemma SortIpAddressList_skips_empty_segments_witness :
  SortIpAddressList model_ParseIPLiteralToNumber (lit ";5.6.7.8; ;1.2.3.4") =
  SortIpAddressList model_ParseIPLiteralToNumber (lit "5.6.7.8;1.2.3.4;;") /\
  (tokens (lit ";5.6.7.8;;1.2.3.4;") = [lit "5.6.7.8"; lit "1.2.3.4"] /\
   SortIpAddressList model_ParseIPLiteralToNumber (lit ";5.6.7.8;;1.2.3.4;") =
   SortIpAddressList model_ParseIPLiteralToNumber (lit "5.6.7.8;1.2.3.4")) /\
  SortIpAddressList model_ParseIPLiteralToNumber (lit "1.2.3.4;;5.6.7.8") =
  Some (true, lit "1.2.3.4;5.6.7.8").
Proof.
  split; [|split].
  - apply (proj1 (SortIpAddressList_skips_empty_segments
                    model_ParseIPLiteralToNumber)).
    vm_compute. reflexivity.
  - apply (proj1 (proj2 (SortIpAddressList_skips_empty_segments
                           model_ParseIPLiteralToNumber))
             [[]; lit "5.6.7.8"; []; lit "1.2.3.4"; []]).
    repeat (apply Forall_cons;
            [intros c Hin; vm_compute in Hin;
             repeat (destruct Hin as [<-|Hin]; [vm_compute; auto|]);
             contradiction|]).
    apply Forall_nil.
  - apply (proj2 (proj2 (SortIpAddressList_skips_empty_segments
                           model_ParseIPLiteralToNumber)));
      vm_compute; reflexivity.
Defined.

(** ** IsInNetEx *)

Lemma IPNumberMatchesPrefix_bits (a p : IPAddressNumber) (n : nat) :
  IPNumberMatchesPrefix a p n = true <->
  forall i, i < n -> ip_bit a i = ip_bit p i.
Proof.
  unfold IPNumberMatchesPrefix. rewrite forallb_forall. split.
  - intros H i Hi. apply eqb_prop, H, in_seq. lia.
  - intros H i Hi. apply in_seq in Hi.
    rewrite H by lia. apply eqb_reflx.
Qed.

Lemma existsb_in_chars (s chars : std_string) :
  existsb (fun c => in_chars c chars) s = true <->
  exists c, In c s /\ in_chars c chars = true.
Proof. apply existsb_exists. Qed.

(** C4.  IsInNetEx returns [false] when the address contains a space
    or a tab, when it does not parse, when the prefix does not parse
    as a CIDR block, and when address and prefix have different byte
    lengths; otherwise it returns [true] exactly when the first
    [bitlength] bits of the address are those of the prefix.  With
    parsers that read ["10.1.2.3"], ["10.1.0.0/16"] and ["::/16"] in
    the usual way, the first two match and the first and third do
    not. *)
Theorem IsInNetEx_result
    (parse : std_string -> option IPAddressNumber)
    (cidr : std_string -> option (IPAddressNumber * nat)) :
  (forall ip_address ip_prefix,
      let r := IsInNetEx parse cidr IPNumberMatchesPrefix
                 ip_address ip_prefix in
      ((exists c, In c ip_address /\ in_chars c kSpaceTab = true) ->
       r = Some false) /\
      (parse ip_address = None -> r = Some false) /\
      (cidr ip_prefix = None -> r = Some false) /\
      (forall address prefix bitlength,
          parse ip_address = Some address ->
          cidr ip_prefix = Some (prefix, bitlength) ->
          length address <> length prefix ->
          r = Some false) /\
      (forall address prefix bitlength,
          (forall c, In c ip_address -> in_chars c kSpaceTab = false) ->
          parse ip_address = Some address ->
          cidr ip_prefix = Some (prefix, bitlength) ->
          length address = length prefix ->
          exists b,
            r = Some b /\
            (b = true <->
             forall i, i < bitlength -> ip_bit address i = ip_bit prefix i)))
  /\
  (parse (lit "10.1.2.3") = Some [x0a; x01; x02; x03] ->
   cidr (lit "10.1.0.0/16") = Some ([x0a; x01; x00; x00], 16) ->
   IsInNetEx parse cidr IPNumberMatchesPrefix
     (lit "10.1.2.3") (lit "10.1.0.0/16") = Some true) /\
  (parse (lit "10.1.2.3") = Some [x0a; x01; x02; x03] ->
   cidr (lit "::/16") = Some (repeat x00 16, 16) ->
   IsInNetEx parse cidr IPNumberMatchesPrefix
     (lit "10.1.2.3") (lit "::/16") = Some false).
Proof.
  split; [|split].
  - intros ip_address ip_prefix r. subst r. unfold IsInNetEx.
    rewrite RemoveChars_strip. unfold bind.
    destruct (existsb (fun c => in_chars c kSpaceTab) ip_address) eqn:Hws.
    + repeat split; try reflexivity.
      * intros address prefix bitlength Hplain.
        apply existsb_in_chars in Hws. destruct Hws as (c & Hin & Hc).
        rewrite (Hplain c Hin) in Hc. discriminate.
    + assert (Hnone : ~ exists c, In c ip_address /\
                                  in_chars c kSpaceTab = true).
      { intros H. apply existsb_in_chars in H. congruence. }
      split; [intros H; contradiction|].
      destruct (parse ip_address) as [address|].
      * destruct (cidr ip_prefix) as [[prefix bitlength]|].
        -- destruct (Nat.eqb_spec (length address) (length prefix))
             as [Heq|Hne]; simpl.
           ++ repeat split; try discriminate.
              ** intros a p n [= <-] [= <- <-] H. contradiction.
              ** intros a p n _ [= <-] [= <- <-] _.
                 eexists. split; [reflexivity|].
                 apply IPNumberMatchesPrefix_bits.
           ++ repeat split; try discriminate; try reflexivity.
              intros a p n _ [= <-] [= <- <-] H. contradiction.
        -- repeat split; try discriminate; try reflexivity.
      * repeat split; try discriminate; try reflexivity.
  - intros Hp Hc. unfold IsInNetEx.
    rewrite RemoveChars_strip, Hp, Hc. reflexivity.
  - intros Hp Hc. unfold IsInNetEx.
    rewrite RemoveChars_strip, Hp, Hc. reflexivity.
Qed.

Lemma IsInNetEx_result_witness :
  IsInNetEx model_ParseIPLiteralToNumber model_ParseCIDRBlock
    IPNumberMatchesPrefix (lit "10.1.2.3") (lit "10.1.0.0/16") = Some true /\
  IsInNetEx model_ParseIPLiteralToNumber model_ParseCIDRBlock
    IPNumberMatchesPrefix (lit "10.1.2.3") (lit "::/16") = Some false /\
  IsInNetEx model_ParseIPLiteralToNumber model_ParseCIDRBlock
    IPNumberMatchesPrefix (lit "10.1.2.3 ") (lit "10.1.0.0/16") =
    Some false /\
  exists b,
    IsInNetEx model_ParseIPLiteralToNumber model_ParseCIDRBlock
      IPNumberMatchesPrefix (lit "10.2.2.3") (lit "10.1.0.0/16") = Some b /\
    (b = true <->
     forall i, i < 16 ->
       ip_bit [x0a; x02; x02; x03] i = ip_bit [x0a; x01; x00; x00] i).
Proof.
  pose proof (IsInNetEx_result model_ParseIPLiteralToNumber
                model_ParseCIDRBlock) as (Hall & Hin & Hout).
  split; [apply Hin; vm_compute; reflexivity|].
  split; [apply Hout; vm_compute; reflexivity|].
  split.
  - destruct (Hall (lit "10.1.2.3 ") (lit "10.1.0.0/16")) as (Hws & _).
    apply Hws. exists " "%char. split; vm_compute; auto 10.
  - destruct (Hall (lit "10.2.2.3") (lit "10.1.0.0/16"))
      as (_ & _ & _ & _ & Hbits).
    apply Hbits.
    + intros c Hc. vm_compute in Hc.
      repeat (destruct Hc as [<-|Hc]; [vm_compute; reflexivity|]).
      contradiction.
    + vm_compute. reflexivity.
    + vm_compute. reflexivity.
    + reflexivity.
Defined.

(** ** dnsResolve *)

Section HostFacts.
Context {v8 : V8}.

Lemma GetHostnameArgument_None (args : FunctionCallbackInfo) :
  no_ascii_hostname args -> GetHostnameArgument args = None.
Proof.
  intros [->|[(rest & ->)|[(v & rest & -> & Hv)|(s & rest & -> & Hs)]]].
  - reflexivity.
  - reflexivity.
  - destruct v; try reflexivity. discriminate.
  - simpl. unfold IsStringASCII, V8StringToUTF16.
    apply DoIsStringASCII_Exists in Hs. now rewrite Hs.
Qed.

Lemma GetHostnameArgument_Some (s : String16)
    (rest : FunctionCallbackInfo) :
  Forall is_ascii_unit s ->
  GetHostnameArgument (Some (VString s) :: rest) = Some (UTF16ToASCII s).
Proof.
  intros Hs. simpl. unfold IsStringASCII, V8StringToUTF16.
  apply DoIsStringASCII_Forall in Hs. now rewrite Hs.
Qed.

Context {js_bindings_ : ProxyResolverJSBindings}.

(** C6.  The dnsResolve callback never schedules an exception.
    When its first argument is missing, not a string or not an
    ASCII string it leaves the return value untouched, which the
    script sees as [undefined] and not as [null]; with an ASCII
    string it returns [null] when the lookup fails and the string
    of the bindings when it succeeds. *)
Theorem DnsResolveCallback_result (args : FunctionCallbackInfo) :
  pending_exception (DnsResolveCallback args) = None /\
  (no_ascii_hostname args ->
   return_value (DnsResolveCallback args) = Unset /\
   observed (return_value (DnsResolveCallback args)) = VUndefined /\
   observed (return_value (DnsResolveCallback args)) <> VNull) /\
  (forall s rest ip_address,
      args = Some (VString s) :: rest ->
      Forall is_ascii_unit s ->
      DnsResolve (UTF16ToASCII s) = (false, ip_address) ->
      return_value (DnsResolveCallback args) = SetTo VNull) /\
  (forall s rest ip_address,
      args = Some (VString s) :: rest ->
      Forall is_ascii_unit s ->
      DnsResolve (UTF16ToASCII s) = (true, ip_address) ->
      return_value (DnsResolveCallback args) =
      SetTo (VString (NewFromUtf8 ip_address))).
Proof.
  split; [|split; [|split]].
  - unfold DnsResolveCallback.
    destruct (GetHostnameArgument args) as [hostname|]; [|reflexivity].
    destruct (DnsResolve hostname) as [[|] ip]; reflexivity.
  - intros Hbad. unfold DnsResolveCallback.
    rewrite (GetHostnameArgument_None _ Hbad). simpl.
    repeat split. discriminate.
  - intros s rest ip -> Hs Hdns. unfold DnsResolveCallback.
    rewrite (GetHostnameArgument_Some _ _ Hs), Hdns. reflexivity.
  - intros s rest ip -> Hs Hdns. unfold DnsResolveCallback.
    rewrite (GetHostnameArgument_Some _ _ Hs), Hdns. reflexivity.
Qed.
End HostFacts.

Lemma DnsResolveCallback_result_witness :
  let cb := @DnsResolveCallback toy_v8 toy_bindings in
  (return_value (cb [Some (VString [233%N; 46%N; 102%N; 114%N])]) = Unset /\
   observed (return_value (cb [Some (VString [233%N; 46%N; 102%N; 114%N])]))
     = VUndefined /\
   observed (return_value (cb [Some (VString [233%N; 46%N; 102%N; 114%N])]))
     <> VNull) /\
  return_value (cb []) = Unset /\
  return_value (cb [Some (VNumber 7)]) = Unset /\
  return_value (cb [Some (VString (String16_of_literal "example.org"))]) =
    SetTo VNull /\
  return_value (cb [Some (VString (String16_of_literal "localhost"))]) =
    SetTo (VString (String16_of_literal "127.0.0.1")).
Proof.
  cbv zeta. split; [|split; [|split; [|split]]].
  - apply (@DnsResolveCallback_result toy_v8 toy_bindings).
    right; right; right. eexists _, _. split; [reflexivity|].
    apply Exists_cons_hd. reflexivity.
  - apply (@DnsResolveCallback_result toy_v8 toy_bindings). now left.
  - apply (@DnsResolveCallback_result toy_v8 toy_bindings).
    right; right; left. eexists _, _. split; reflexivity.
  - eapply (@DnsResolveCallback_result toy_v8 toy_bindings).
    + reflexivity.
    + repeat constructor; vm_compute; discriminate.
    + vm_compute. reflexivity.
  - eapply (proj2 (proj2 (proj2 (@DnsResolveCallback_result
                                   toy_v8 toy_bindings _)))).
    + reflexivity.
    + repeat constructor; vm_compute; discriminate.
    + vm_compute. reflexivity.
Defined.

(** ** ResolveProxy *)

Section ContextFacts.
Context {v8 : V8} {script_h : ProxyResolverScript}.

(** C1.  On a context whose entry function exists and returns
    [ret] from the call: a [ret] that is not a string fails with
    the "did not return a string" diagnostic and leaves [*results]
    alone; a string with a code unit above 0x7F fails with the
    "non-ASCII" diagnostic; a string of code units up to 0x7F
    succeeds with exactly that string as the result. *)
Theorem ResolveProxy_result (this : ResolverContext)
    (url host results : String16) (function ret : Value)
    (isolate' : Isolate) (events : list Event) :
  GetFindProxyForURL this = (true, function) ->
  Function_Call (isolate_ this) function [VString url; VString host] =
    (isolate', events, Normal ret) ->
  (IsString ret = false ->
   ResolveProxy this url host results =
   Returned (ERR_PAC_SCRIPT_FAILED, results,
             EngineLocked :: events ++
             [ErrorMessage
                (String16_of_literal
                   "FindProxyForURL() did not return a string.")],
             MkContext isolate')) /\
  (forall s,
      ret = VString s -> Exists (fun c => (0x7F < c)%N) s ->
      ResolveProxy this url host results =
      Returned (ERR_PAC_SCRIPT_FAILED, s,
                EngineLocked :: events ++
                [ErrorMessage
                   (String16_of_literal
                      "FindProxyForURL() returned a non-ASCII string")],
                MkContext isolate')) /\
  (forall s,
      ret = VString s -> Forall is_ascii_unit s ->
      ResolveProxy this url host results =
      Returned (OK, s, EngineLocked :: events, MkContext isolate')).
Proof.
  intros Hfun Hcall. unfold ResolveProxy, UTF16StringToV8String.
  rewrite Hfun. cbn [negb]. rewrite Hcall.
  split; [|split].
  - intros Hret. destruct ret; try reflexivity. discriminate.
  - intros s -> Hs. apply DoIsStringASCII_Exists in Hs.
    unfold IsStringASCII, V8StringToUTF16. now rewrite Hs.
  - intros s -> Hs. apply DoIsStringASCII_Forall in Hs.
    unfold IsStringASCII, V8StringToUTF16. now rewrite Hs.
Qed.

(** ** InitV8 *)

Lemma RunScript_run_source (this : ResolverContext) (script : String16)
    (name : std_string) :
  RunScript this script name =
  match run_source (isolate_ this) script name with
  | (isolate', events, Caught message) =>
      (ERR_PAC_SCRIPT_FAILED,
       match Script_Compile (isolate_ this) script name with
       | Caught _ => this
       | Normal _ => MkContext isolate'
       end,
       events ++ HandleError message)
  | (isolate', events, Normal _) => (OK, MkContext isolate', events)
  end.
Proof.
  unfold RunScript, run_source.
  destruct (Script_Compile (isolate_ this) script name) as [code|message].
  - destruct (Script_Run (isolate_ this) code) as [[isolate' events] [v|m]];
      reflexivity.
  - reflexivity.
Qed.

Lemma RunScript_OK (this this' : ResolverContext) (script : String16)
    (name : std_string) (events : list Event) :
  RunScript this script name = (OK, this', events) ->
  script_runs (isolate_ this) script name (isolate_ this').
Proof.
  rewrite RunScript_run_source. unfold script_runs.
  destruct (run_source (isolate_ this) script name)
    as [[isolate' ev] [v|m]]; [|discriminate].
  intros [= <- <-]. now exists ev, v.
Qed.

Lemma InitV8_OK (this this' : ResolverContext) (pac_script : String16)
    (events : list Event) :
  InitV8 this pac_script = (OK, this', events) ->
  entry_callable (isolate_ this').
Proof.
  unfold InitV8.
  destruct (RunScript _ utility_script kPacUtilityResourceName)
    as [[rv1 c1] ev1].
  destruct rv1; cbn [is_OK negb]; try discriminate.
  destruct (RunScript c1 pac_script kPacResourceName) as [[rv2 c2] ev2].
  destruct rv2; cbn [is_OK negb]; try discriminate.
  unfold GetFindProxyForURL, entry_callable. cbn [fst].
  destruct (IsFunction _) eqn:Hentry; cbn [negb]; [|discriminate].
  now intros [= <- _].
Qed.

(** C8.  InitV8 first runs the utility library in the fresh context,
    whatever the user script is, and then the user script in the
    isolate the library left.  It fails, handing the engine's
    diagnostic to the listener, when the library or the user script
    does not parse or run; it fails without a diagnostic when both
    ran but the global FindProxyForURL is not a function; it returns
    [OK] only when both ran and the entry function is callable, and
    then the context is the one both scripts built. *)
Theorem InitV8_result (this : ResolverContext) (pac_script : String16) :
  let fresh := Context_New (isolate_ this) global_template in
  (forall isolate1 events1 message,
      run_source fresh utility_script kPacUtilityResourceName =
        (isolate1, events1, Caught message) ->
      fst (fst (InitV8 this pac_script)) = ERR_PAC_SCRIPT_FAILED /\
      snd (InitV8 this pac_script) =
        EngineLocked :: events1 ++ HandleError message) /\
  (forall isolate1 events1 v1 isolate2 events2 message,
      run_source fresh utility_script kPacUtilityResourceName =
        (isolate1, events1, Normal v1) ->
      run_source isolate1 pac_script kPacResourceName =
        (isolate2, events2, Caught message) ->
      fst (fst (InitV8 this pac_script)) = ERR_PAC_SCRIPT_FAILED /\
      snd (InitV8 this pac_script) =
        EngineLocked :: events1 ++ events2 ++ HandleError message) /\
  (forall isolate1 events1 v1 isolate2 events2 v2,
      run_source fresh utility_script kPacUtilityResourceName =
        (isolate1, events1, Normal v1) ->
      run_source isolate1 pac_script kPacResourceName =
        (isolate2, events2, Normal v2) ->
      (~ entry_callable isolate2 ->
       InitV8 this pac_script =
       (ERR_PAC_SCRIPT_FAILED, MkContext isolate2,
        EngineLocked :: events1 ++ events2)) /\
      (entry_callable isolate2 ->
       InitV8 this pac_script =
       (OK, MkContext isolate2, EngineLocked :: events1 ++ events2))) /\
  (fst (fst (InitV8 this pac_script)) = OK ->
   exists isolate1 isolate2,
     script_runs fresh utility_script kPacUtilityResourceName isolate1 /\
     script_runs isolate1 pac_script kPacResourceName isolate2 /\
     entry_callable isolate2 /\
     snd (fst (InitV8 this pac_script)) = MkContext isolate2).
Proof.
  intros fresh. unfold InitV8. fold fresh.
  split; [|split; [|split]].
  - intros isolate1 events1 message H1.
    rewrite RunScript_run_source. cbn [isolate_]. rewrite H1.
    split; reflexivity.
  - intros isolate1 events1 v1 isolate2 events2 message H1 H2.
    rewrite RunScript_run_source. cbn [isolate_]. rewrite H1.
    cbn [is_OK negb].
    rewrite RunScript_run_source. cbn [isolate_]. rewrite H2.
    split; reflexivity.
  - intros isolate1 events1 v1 isolate2 events2 v2 H1 H2.
    rewrite RunScript_run_source. cbn [isolate_]. rewrite H1.
    cbn [is_OK negb].
    rewrite RunScript_run_source. cbn [isolate_]. rewrite H2.
    cbn [is_OK negb]. unfold GetFindProxyForURL, entry_callable.
    cbn [fst isolate_].
    destruct (IsFunction _); split; intros H;
      try reflexivity; try discriminate.
    now elim H.
  - destruct (RunScript (MkContext fresh) utility_script
                kPacUtilityResourceName) as [[rv1 c1] ev1] eqn:R1.
    destruct rv1; cbn [is_OK negb]; try discriminate.
    destruct (RunScript c1 pac_script kPacResourceName)
      as [[rv2 c2] ev2] eqn:R2.
    destruct rv2; cbn [is_OK negb]; try discriminate.
    unfold GetFindProxyForURL. cbn [fst].
    destruct (IsFunction _) eqn:Hentry; cbn [negb fst snd];
      [|discriminate].
    intros _. exists (isolate_ c1), (isolate_ c2).
    apply RunScript_OK in R1. apply RunScript_OK in R2.
    destruct c2. auto.
Qed.
End ContextFacts.

Lemma ResolveProxy_result_witness :
  let ctx (script : String16) := @MkContext toy_v8 [script] in
  @ResolveProxy toy_v8 (ctx (String16_of_literal "fDIRECT"))
    (String16_of_literal "http://a/") (String16_of_literal "a") [] =
  Returned (OK, String16_of_literal "DIRECT", [EngineLocked],
            ctx (String16_of_literal "fDIRECT")) /\
  @ResolveProxy toy_v8 (ctx [102%N; 233%N])
    (String16_of_literal "http://a/") (String16_of_literal "a") [] =
  Returned (ERR_PAC_SCRIPT_FAILED, [233%N],
            [EngineLocked;
             ErrorMessage
               (String16_of_literal
                  "FindProxyForURL() returned a non-ASCII string")],
            ctx [102%N; 233%N]) /\
  @ResolveProxy toy_v8 (ctx [102%N])
    (String16_of_literal "http://a/") (String16_of_literal "a") [] =
  Returned (ERR_PAC_SCRIPT_FAILED, [],
            [EngineLocked;
             ErrorMessage
               (String16_of_literal
                  "FindProxyForURL() did not return a string.")],
            ctx [102%N]).
Proof.
  cbv zeta. split; [|split].
  - refine (proj2 (proj2 (@ResolveProxy_result toy_v8
              (@MkContext toy_v8 [String16_of_literal "fDIRECT"])
              _ _ _ (VFunction 0) (VString (String16_of_literal "DIRECT"))
              [String16_of_literal "fDIRECT"] [] eq_refl eq_refl))
              _ eq_refl _).
    repeat constructor; vm_compute; discriminate.
  - refine (proj1 (proj2 (@ResolveProxy_result toy_v8
              (@MkContext toy_v8 [[102%N; 233%N]])
              _ _ _ (VFunction 0) (VString [233%N])
              [[102%N; 233%N]] [] eq_refl eq_refl))
              _ eq_refl _).
    apply Exists_cons_hd. reflexivity.
  - refine (proj1 (@ResolveProxy_result toy_v8
              (@MkContext toy_v8 [[102%N]])
              _ _ _ (VFunction 0) VUndefined
              [[102%N]] [] eq_refl eq_refl) eq_refl).
Defined.

Lemma InitV8_result_witness :
  let init := @InitV8 toy_v8 toy_script_h (@MkContext toy_v8 []) in
  let utility :=
    String16_of_literal "var isPlainHostName;var isResolvableEx;" in
  init (String16_of_literal "fDIRECT") =
    (OK, @MkContext toy_v8 [String16_of_literal "fDIRECT"; utility],
     [EngineLocked]) /\
  init (String16_of_literal "var x;") =
    (ERR_PAC_SCRIPT_FAILED,
     @MkContext toy_v8 [String16_of_literal "var x;"; utility],
     [EngineLocked]) /\
  (fst (fst (init (String16_of_literal "!"))) = ERR_PAC_SCRIPT_FAILED /\
   snd (init (String16_of_literal "!")) =
     [EngineLocked; ErrorMessage (String16_of_literal "SyntaxError")]) /\
  exists isolate1 isolate2,
    @script_runs toy_v8 [] (@utility_script toy_v8 toy_script_h)
      kPacUtilityResourceName isolate1 /\
    @script_runs toy_v8 isolate1 (String16_of_literal "fDIRECT")
      kPacResourceName isolate2 /\
    @entry_callable toy_v8 isolate2 /\
    snd (fst (init (String16_of_literal "fDIRECT"))) =
    @MkContext toy_v8 isolate2.
Proof.
  cbv zeta.
  split; [|split; [|split]].
  - refine (proj2 (proj1 (proj2 (proj2
              (@InitV8_result toy_v8 toy_script_h (@MkContext toy_v8 [])
                 (String16_of_literal "fDIRECT"))))
              _ [] VUndefined _ [] VUndefined eq_refl eq_refl) eq_refl).
  - refine (proj1 (proj1 (proj2 (proj2
              (@InitV8_result toy_v8 toy_script_h (@MkContext toy_v8 [])
                 (String16_of_literal "var x;"))))
              _ [] VUndefined _ [] VUndefined eq_refl eq_refl) _).
    vm_compute. discriminate.
  - refine (proj1 (proj2
              (@InitV8_result toy_v8 toy_script_h (@MkContext toy_v8 [])
                 (String16_of_literal "!")))
              _ [] VUndefined _ []
              (Some (String16_of_literal "SyntaxError")) eq_refl eq_refl).
  - refine (proj2 (proj2 (proj2
              (@InitV8_result toy_v8 toy_script_h (@MkContext toy_v8 [])
                 (String16_of_literal "fDIRECT")))) eq_refl).
Defined.

(** ** The facade *)

Section FacadeFacts.
Context {v8 : V8} {script_h : ProxyResolverScript}.

Lemma SetPacScript_InitV8 (this : ProxyResolverV8)
    (script_data : String16) :
  fst (SetPacScript this script_data) =
  match script_data with
  | [] => (ERR_PAC_SCRIPT_FAILED, MkProxyResolverV8 None)
  | _ :: _ =>
      match InitV8 (MkContext Isolate_New) script_data with
      | (OK, context, _) => (OK, MkProxyResolverV8 (Some context))
      | (rv, _, _) => (rv, MkProxyResolverV8 None)
      end
  end.
Proof.
  unfold SetPacScript.
  destruct script_data as [|c rest]; [reflexivity|].
  cbn [length Nat.eqb].
  destruct (InitV8 (MkContext Isolate_New) (c :: rest))
    as [[rv context] events].
  destruct rv; reflexivity.
Qed.

(** C7.  Whatever the resolver held before, after SetPacScript it
    holds no context when the call failed - as it does on an empty
    script and whenever InitV8 fails - and on success it holds the
    context InitV8 built from this script in a new isolate, whose
    entry function is callable.  Status and resulting resolver do
    not depend on the prior state. *)
Theorem SetPacScript_result (this this' : ProxyResolverV8)
    (script_data : String16) (rv : net_error) (events : list Event) :
  SetPacScript this script_data = (rv, this', events) ->
  (rv <> OK -> context_ this' = None) /\
  (rv = OK ->
   exists context events',
     context_ this' = Some context /\
     InitV8 (MkContext Isolate_New) script_data = (OK, context, events') /\
     entry_callable (isolate_ context)) /\
  (script_data = [] -> rv = ERR_PAC_SCRIPT_FAILED) /\
  (fst (fst (InitV8 (MkContext Isolate_New) script_data)) <> OK ->
   rv <> OK) /\
  (forall other, fst (SetPacScript other script_data) = (rv, this')).
Proof.
  intros H.
  assert (Hfst : fst (SetPacScript this script_data) = (rv, this'))
    by now rewrite H.
  rewrite SetPacScript_InitV8 in Hfst.
  assert (Hother : forall other,
             fst (SetPacScript other script_data) = (rv, this')).
  { intros other. rewrite SetPacScript_InitV8. exact Hfst. }
  destruct script_data as [|c rest].
  - injection Hfst as <- <-.
    split; [reflexivity|].
    split; [discriminate|].
    split; [reflexivity|].
    split; [discriminate|assumption].
  - destruct (InitV8 (MkContext Isolate_New) (c :: rest))
      as [[rv0 context] events0] eqn:Hinit.
    destruct rv0; injection Hfst as <- <-.
    + split; [intros Hne; now elim Hne|].
      split; [|split; [discriminate|split; [auto|assumption]]].
      intros _. exists context, events0.
      split; [reflexivity|]. split; [reflexivity|].
      eapply InitV8_OK. exact Hinit.
    + split; [reflexivity|].
      split; [discriminate|].
      split; [discriminate|].
      split; [discriminate|assumption].
    + split; [reflexivity|].
      split; [discriminate|].
      split; [discriminate|].
      split; [discriminate|assumption].
Qed.

Lemma SetPacScript_failed (this : ProxyResolverV8)
    (script_data : String16) :
  fst (fst (SetPacScript this script_data)) <> OK ->
  snd (fst (SetPacScript this script_data)) = MkProxyResolverV8 None.
Proof.
  rewrite SetPacScript_InitV8.
  destruct script_data as [|c rest]; [reflexivity|].
  destruct (InitV8 (MkContext Isolate_New) (c :: rest))
    as [[rv context] events].
  destruct rv; simpl; congruence.
Qed.

Lemma SetPacScripts_all_failed (scripts : list String16) :
  forall this rvs this',
    context_ this = None ->
    SetPacScripts this scripts = (rvs, this') ->
    Forall (fun rv => rv <> OK) rvs ->
    context_ this' = None.
Proof.
  induction scripts as [|script_data rest IH];
    intros this rvs this' Hnone Hrun Hall; simpl in Hrun.
  - injection Hrun as <- <-. exact Hnone.
  - pose proof (SetPacScript_failed this script_data) as Hfail.
    destruct (SetPacScript this script_data) as [[rv next] events].
    destruct (SetPacScripts next rest) as [rvs' last] eqn:Hrest.
    injection Hrun as <- <-.
    inversion Hall as [|? ? Hrv Hrvs]; subst.
    apply (IH next rvs' last); try assumption.
    simpl in Hfail. now rewrite Hfail.
Qed.

(** C9.  As long as no SetPacScript has succeeded, GetProxyForURL
    returns [ERR_FAILED]; the engine is not entered, nothing
    reaches the listener, [*results] keeps its value and the
    resolver is unchanged. *)
Theorem GetProxyForURL_before_SetPacScript (scripts : list String16)
    (rvs : list net_error) (this : ProxyResolverV8)
    (spec host results : String16) :
  SetPacScripts ProxyResolverV8_new scripts = (rvs, this) ->
  Forall (fun rv => rv <> OK) rvs ->
  GetProxyForURL this spec host results =
  Returned (ERR_FAILED, results, [], this).
Proof.
  intros Hrun Hall. unfold GetProxyForURL.
  now rewrite (SetPacScripts_all_failed scripts ProxyResolverV8_new
                 rvs this eq_refl Hrun Hall).
Qed.

(** C5.  PurgeMemory calls through [context_] without testing it:
    on a new resolver, and on one whose SetPacScript just failed,
    the call dereferences a null pointer instead of doing
    nothing. *)
Theorem PurgeMemory_without_context :
  PurgeMemory ProxyResolverV8_new = Crashed /\
  forall this,
    PurgeMemory (snd (fst (SetPacScript this []))) = Crashed.
Proof. split; reflexivity. Qed.
End FacadeFacts.

Lemma SetPacScript_result_witness :
  let loaded :=
    snd (fst (@SetPacScript toy_v8 toy_script_h ProxyResolverV8_new
                (String16_of_literal "fDIRECT"))) in
  (exists context events',
      context_ loaded = Some context /\
      @InitV8 toy_v8 toy_script_h (@MkContext toy_v8 [])
        (String16_of_literal "fDIRECT") = (OK, context, events') /\
      @entry_callable toy_v8 (isolate_ context)) /\
  context_ (snd (fst (@SetPacScript toy_v8 toy_script_h loaded
                        (String16_of_literal "var x;")))) = None /\
  context_ (snd (fst (@SetPacScript toy_v8 toy_script_h loaded []))) = None.
Proof.
  cbv zeta.
  set (loaded := snd (fst (@SetPacScript toy_v8 toy_script_h
                             ProxyResolverV8_new
                             (String16_of_literal "fDIRECT")))).
  split; [|split].
  - refine (proj1 (proj2 (@SetPacScript_result toy_v8 toy_script_h
              ProxyResolverV8_new loaded (String16_of_literal "fDIRECT")
              OK [EngineLocked] eq_refl)) eq_refl).
  - refine (proj1 (@SetPacScript_result toy_v8 toy_script_h
              loaded _ (String16_of_literal "var x;")
              ERR_PAC_SCRIPT_FAILED [EngineLocked; EngineLocked] eq_refl) _).
    discriminate.
  - refine (proj1 (@SetPacScript_result toy_v8 toy_script_h
              loaded _ [] ERR_PAC_SCRIPT_FAILED [EngineLocked] eq_refl) _).
    discriminate.
Defined.

Lemma GetProxyForURL_before_SetPacScript_witness :
  @GetProxyForURL toy_v8 (@MkProxyResolverV8 toy_v8 None)
    (String16_of_literal "http://a/") (String16_of_literal "a")
    (String16_of_literal "old") =
  Returned (ERR_FAILED, String16_of_literal "old", [],
            @MkProxyResolverV8 toy_v8 None).
Proof.
  apply (@GetProxyForURL_before_SetPacScript toy_v8 toy_script_h
           [[]; String16_of_literal "!"; String16_of_literal "var x;"]
           [ERR_PAC_SCRIPT_FAILED; ERR_PAC_SCRIPT_FAILED;
            ERR_PAC_SCRIPT_FAILED]).
  - vm_compute. reflexivity.
  - repeat constructor; discriminate.
Defined.

(** * Further properties of the IP utilities *)





(** X2.  IsStringASCII accepts exactly the strings all of whose code
    units are at most 0x7F, the empty string among them; a
    concatenation is ASCII exactly when both parts are. *)
Theorem IsStringASCII_iff (a b : String16) :
  (IsStringASCII a = true <-> Forall is_ascii_unit a) /\
  (IsStringASCII a = false <-> Exists (fun c => (0x7F < c)%N) a) /\
  IsStringASCII (a ++ b) = IsStringASCII a && IsStringASCII b.
Proof.
  unfold IsStringASCII.
  split; [apply DoIsStringASCII_Forall|].
  split; [apply DoIsStringASCII_Exists|].
  induction a as [|c r IH]; simpl; [reflexivity|].
  now destruct (0x7F <? c)%N.
Qed.

(** X3.  [operator<] of IPAddress is a strict weak ordering, as
    [std::stable_sort] requires: irreflexive, transitive, asymmetric,
    and two addresses neither of which is below the other have the
    same number.  Every 16-byte address is below every 4-byte
    address. *)
Theorem IPAddress_lt_strict_weak_order :
  (forall a, IPAddress_lt a a = false) /\
  (forall a b c,
      IPAddress_lt a b = true -> IPAddress_lt b c = true ->
      IPAddress_lt a c = true) /\
  (forall a b, IPAddress_lt a b = true -> IPAddress_lt b a = false) /\
  (forall a b,
      IPAddress_lt a b = false -> IPAddress_lt b a = false ->
      ip_address_number a = ip_address_number b) /\
  (forall a b,
      length (ip_address_number a) = 16 ->
      length (ip_address_number b) = 4 ->
      IPAddress_lt a b = true /\ IPAddress_lt b a = false).
Proof.
  assert (Hirr : forall a, IPAddress_lt a a = false).
  { intros a. destruct (IPAddress_lt a a) eqn:H; [|reflexivity].
    apply IPAddress_lt_sorts_before in H.
    now apply sorts_before_irrefl in H. }
  assert (Htrans : forall a b c,
             IPAddress_lt a b = true -> IPAddress_lt b c = true ->
             IPAddress_lt a c = true).
  { intros a b c Hab Hbc. apply IPAddress_lt_sorts_before.
    apply IPAddress_lt_sorts_before in Hab, Hbc.
    eapply sorts_before_trans; eassumption. }
  split; [exact Hirr|]. split; [exact Htrans|].
  split; [|split].
  - intros a b Hab. destruct (IPAddress_lt b a) eqn:Hba; [|reflexivity].
    rewrite <- (Hirr a). symmetry. now apply (Htrans a b a).
  - intros a b Hab Hba.
    apply IPAddress_lt_false in Hab, Hba.
    now apply ascending_antisym.
  - intros a b Ha Hb. unfold IPAddress_lt. rewrite Ha, Hb. split; reflexivity.
Qed.

(** Every token is clean: not empty, and without [";"], space, tab
    or NUL. *)
Lemma split_on_In (d : ascii) (s seg : std_string) (c : ascii) :
  In seg (split_on d s) -> In c seg -> In c s /\ Ascii.eqb c d = false.
Proof.
  revert seg. induction s as [|x r IH]; intros seg Hseg Hc; simpl in Hseg.
  - destruct Hseg as [<-|[]]. contradiction.
  - destruct (Ascii.eqb x d) eqn:Hx.
    + destruct Hseg as [<-|Hseg]; [contradiction|].
      destruct (IH seg Hseg Hc). split; [now right|assumption].
    + pose proof (split_on_not_nil d r) as Hnil.
      destruct (split_on d r) as [|seg0 segs]; [contradiction|].
      destruct Hseg as [<-|Hseg].
      * destruct Hc as [<-|Hc]; [split; [now left|assumption]|].
        destruct (IH seg0 (or_introl eq_refl) Hc).
        split; [now right|assumption].
      * destruct (IH seg (or_intror Hseg) Hc).
        split; [now right|assumption].
Qed.

Lemma c_str_In (s : std_string) (c : ascii) :
  In c (c_str s) -> In c s /\ Ascii.eqb c NUL = false.
Proof.
  induction s as [|x r IH]; simpl; [contradiction|].
  destruct (Ascii.eqb x NUL) eqn:Hx; [contradiction|].
  intros [<-|Hin]; [split; [now left|assumption]|].
  destruct (IH Hin). split; [now right|assumption].
Qed.

Lemma tokens_clean (input tok : std_string) :
  In tok (tokens input) -> plain tok /\ tok <> [].
Proof.
  unfold tokens. intros Hin. apply filter_In in Hin.
  destruct Hin as [Hin Hne]. split; [|now destruct tok].
  intros c Hc.
  destruct (split_on_In _ _ _ _ Hin Hc) as [Hcs Hsemi].
  destruct (c_str_In _ _ Hcs) as [Hstrip Hnul].
  unfold strip in Hstrip. apply filter_In in Hstrip.
  destruct Hstrip as [_ Hkept]. unfold kept in Hkept.
  apply negb_true_iff in Hkept.
  rewrite in_chars_semicolon. auto.
Qed.

Lemma filter_nonempty_all (segs : list std_string) :
  Forall (fun seg => seg <> []) segs -> filter nonempty segs = segs.
Proof.
  induction 1 as [|seg rest Hseg _ IH]; simpl; [reflexivity|].
  destruct seg; [contradiction|]. simpl. now rewrite IH.
Qed.

Lemma parse_all_map (parse : std_string -> option IPAddressNumber)
    (l : list IPAddress) :
  Forall (fun a => parse (string_value a) = Some (ip_address_number a)) l ->
  parse_all parse (map string_value l) = Some l.
Proof.
  induction 1 as [|a rest Ha _ IH]; simpl; [reflexivity|].
  rewrite Ha, IH. now destruct a.
Qed.

Lemma parse_all_ext (parse1 parse2 : std_string -> option IPAddressNumber)
    (toks : list std_string) :
  (forall tok, In tok toks -> parse1 tok = parse2 tok) ->
  parse_all parse1 toks = parse_all parse2 toks.
Proof.
  induction toks as [|tok rest IH]; intros H; simpl; [reflexivity|].
  rewrite (H tok (or_introl eq_refl)).
  rewrite IH; [reflexivity|]. intros t Ht. apply H. now right.
Qed.

Lemma parse_all_total (parse : std_string -> option IPAddressNumber)
    (toks : list std_string) :
  (forall tok, In tok toks -> parse tok <> None) ->
  exists addrs, parse_all parse toks = Some addrs.
Proof.
  induction toks as [|tok rest IH]; intros H; simpl; [now exists []|].
  destruct (parse tok) as [n|] eqn:Hn;
    [|now elim (H tok (or_introl eq_refl))].
  destruct IH as [addrs ->]; [intros t Ht; apply H; now right|].
  now eexists.
Qed.

Lemma join_not_nil (seg : std_string) (segs : list std_string) :
  seg <> [] -> join (seg :: segs) <> [].
Proof.
  intros Hseg. destruct segs as [|s rest]; [exact Hseg|].
  change (join (seg :: s :: rest)) with (seg ++ lit ";" ++ join (s :: rest)).
  destruct seg; [contradiction|discriminate].
Qed.

Lemma stable_sort_sorted_list (l : list IPAddress) :
  StronglySorted ascending l -> stable_sort IPAddress_lt l = l.
Proof.
  intros Hs. symmetry. apply (stably_sorted_unique l).
  - split; [reflexivity|]. split; [exact Hs|reflexivity].
  - apply stable_sort_stably_sorted.
Qed.

(** X4.  SortIpAddressList always returns.  It succeeds exactly when
    the input has at least one token and every token parses; a
    failure leaves the output empty and a success never does. *)
Theorem SortIpAddressList_succeeds_iff
    (parse : std_string -> option IPAddressNumber) (input : std_string) :
  exists success output,
    SortIpAddressList parse input = Some (success, output) /\
    (success = true <->
     tokens input <> [] /\
     forall tok, In tok (tokens input) -> parse tok <> None) /\
    (success = false -> output = []) /\
    (success = true -> output <> []).
Proof.
  rewrite SortIpAddressList_spec.
  pose proof (tokens_clean input) as Hclean.
  destruct (tokens input) as [|tok toks] eqn:Htoks.
  - exists false, []. split; [reflexivity|].
    split; [|split; [reflexivity|discriminate]].
    split; [discriminate|]. intros [H _]. now elim H.
  - destruct (parse_all parse (tok :: toks)) as [addrs|] eqn:Hparse.
    + eexists true, _. split; [reflexivity|].
      destruct (parse_all_Some parse _ _ Hparse) as [Hmap Hall].
      split; [|split; [discriminate|]].
      * split; [|reflexivity]. intros _. split; [discriminate|].
        intros t Ht. rewrite <- Hmap in Ht. apply in_map_iff in Ht.
        destruct Ht as (a & <- & Ha).
        rewrite Forall_forall in Hall. rewrite (Hall a Ha). discriminate.
      * intros _.
        pose proof (stable_sort_perm addrs) as Hperm.
        assert (Hne : Forall (fun seg => seg <> [])
                        (map string_value (stable_sort IPAddress_lt addrs))).
        { apply (Permutation_Forall (Permutation_map string_value Hperm)).
          rewrite Hmap. apply Forall_forall. intros t Ht.
          now apply Hclean. }
        destruct (stable_sort IPAddress_lt addrs) as [|a rest].
        -- apply Permutation_sym, Permutation_nil in Hperm.
           subst addrs. discriminate.
        -- simpl map in *. apply join_not_nil. now inversion Hne.
    + exists false, []. split; [reflexivity|].
      split; [|split; [reflexivity|discriminate]].
      split; [discriminate|]. intros [_ H].
      destruct (parse_all_total parse _ H) as [addrs Haddrs].
      congruence.
Qed.

(** X5.  A successful SortIpAddressList is idempotent: its output is
    again a list it accepts, and sorting that gives the same output.
    The output has no empty segment: its tokens are its segments. *)
Theorem SortIpAddressList_idempotent
    (parse : std_string -> option IPAddressNumber)
    (input output : std_string) :
  SortIpAddressList parse input = Some (true, output) ->
  SortIpAddressList parse output = Some (true, output) /\
  tokens output = split_on ";"%char output.
Proof.
  intros H. rewrite SortIpAddressList_spec in H.
  pose proof (tokens_clean input) as Hclean.
  destruct (tokens input) as [|tok toks] eqn:Htoks; [discriminate|].
  destruct (parse_all parse (tok :: toks)) as [addrs|] eqn:Hparse;
    [|discriminate].
  injection H as <-.
  destruct (parse_all_Some parse _ _ Hparse) as [Hmap Hall].
  pose proof (stable_sort_perm addrs) as Hperm.
  pose proof (stable_sort_sorted addrs) as Hss.
  remember (stable_sort IPAddress_lt addrs) as sorted eqn:Hs.
  clear Hs.
  assert (Hc : Forall (fun seg => plain seg /\ seg <> [])
                 (map string_value sorted)).
  { apply (Permutation_Forall (Permutation_map string_value Hperm)).
    rewrite Hmap. apply Forall_forall. exact Hclean. }
  assert (Hplain : Forall plain (map string_value sorted))
    by (eapply Forall_impl; [|exact Hc]; now intros s [? ?]).
  assert (Hne : Forall (fun seg => seg <> []) (map string_value sorted))
    by (eapply Forall_impl; [|exact Hc]; now intros s [? ?]).
  assert (Htok : tokens (join (map string_value sorted)) =
                 map string_value sorted)
    by (rewrite (tokens_join _ Hplain); now apply filter_nonempty_all).
  assert (Hparse' : parse_all parse (map string_value sorted) = Some sorted)
    by (apply parse_all_map, (Permutation_Forall Hperm); exact Hall).
  destruct sorted as [|a rest].
  { apply Permutation_sym, Permutation_nil in Hperm.
    subst addrs. discriminate. }
  split.
  - rewrite SortIpAddressList_spec, Htok.
    change (map string_value (a :: rest))
      with (string_value a :: map string_value rest) in *.
    cbv iota. rewrite Hparse'.
    now rewrite (stable_sort_sorted_list _ Hss).
  - rewrite Htok. symmetry. now apply split_on_join.
Qed.

Lemma SortIpAddressList_idempotent_witness :
  SortIpAddressList model_ParseIPLiteralToNumber
    (lit "::1;1.2.3.4;40.1.1.1") =
  Some (true, lit "::1;1.2.3.4;40.1.1.1") /\
  tokens (lit "::1;1.2.3.4;40.1.1.1") =
  split_on ";"%char (lit "::1;1.2.3.4;40.1.1.1").
Proof.
  apply (SortIpAddressList_idempotent model_ParseIPLiteralToNumber
           (lit " 40.1.1.1;;1.2.3.4; ::1")).
  vm_compute. reflexivity.
Defined.

(** X6.  SortIpAddressList hands the parser clean tokens only: two
    parsers that agree on the non-empty strings without [";"], space,
    tab and NUL give the same result on every input. *)
Theorem SortIpAddressList_parses_clean_tokens
    (parse1 parse2 : std_string -> option IPAddressNumber) :
  (forall tok, plain tok -> tok <> [] -> parse1 tok = parse2 tok) ->
  forall input,
    SortIpAddressList parse1 input = SortIpAddressList parse2 input.
Proof.
  intros Hagree input. rewrite !SortIpAddressList_spec.
  assert (E : parse_all parse1 (tokens input) =
              parse_all parse2 (tokens input)).
  { apply parse_all_ext. intros tok Hin.
    destruct (tokens_clean input tok Hin). now apply Hagree. }
  destruct (tokens input) as [|tok toks]; [reflexivity|].
  now rewrite E.
Qed.

Lemma SortIpAddressList_parses_clean_tokens_witness :
  SortIpAddressList model_ParseIPLiteralToNumber (lit ";1.2.3.4; ;::1") =
  SortIpAddressList
    (fun tok => match tok with
                | [] => Some [x00; x00; x00; x00]
                | _ => model_ParseIPLiteralToNumber tok
                end)
    (lit ";1.2.3.4; ;::1").
Proof.
  apply SortIpAddressList_parses_clean_tokens.
  intros tok _ Hne. destruct tok; [contradiction|reflexivity].
Defined.

(** * Further properties of the callbacks *)

Lemma ascii_unit_round_trip (c : N) :
  is_ascii_unit c -> N_of_ascii (ascii_of_N c) = c.
Proof.
  unfold is_ascii_unit. intros H. apply N_ascii_embedding. lia.
Qed.

Lemma ascii_unit_NUL (c : N) :
  is_ascii_unit c -> Ascii.eqb (ascii_of_N c) NUL = true -> c = 0%N.
Proof.
  intros H Heq. apply Ascii.eqb_eq in Heq.
  rewrite <- (ascii_unit_round_trip c H), Heq. reflexivity.
Qed.

Lemma UTF16ToASCII_prefix (s : String16) :
  Forall is_ascii_unit s ->
  exists tail,
    s = map N_of_ascii (UTF16ToASCII s) ++ tail /\
    (tail = [] \/ exists rest, tail = 0%N :: rest).
Proof.
  unfold UTF16ToASCII.
  induction 1 as [|c r Hc _ IH]; simpl.
  - exists []. auto.
  - destruct (Ascii.eqb (ascii_of_N c) NUL) eqn:Hnul.
    + exists (c :: r). split; [reflexivity|].
      right. exists r. now rewrite (ascii_unit_NUL c Hc Hnul).
    + destruct IH as (tail & Hs & Htail). exists tail.
      simpl. rewrite (ascii_unit_round_trip c Hc).
      split; [now rewrite <- Hs|exact Htail].
Qed.

(** X7.  The hostname GetHostnameArgument hands out is the first
    argument, an ASCII string, cut at its first NUL code unit: it has
    no NUL, and read back as code units it is the argument up to
    that point. *)
Theorem GetHostnameArgument_hostname (args : FunctionCallbackInfo)
    (hostname : std_string) :
  GetHostnameArgument args = Some hostname ->
  exists s rest tail,
    args = Some (VString s) :: rest /\
    Forall is_ascii_unit s /\
    (forall c, In c hostname -> c <> NUL) /\
    s = map N_of_ascii hostname ++ tail /\
    (tail = [] \/ exists units, tail = 0%N :: units).
Proof.
  intros H.
  destruct args as [|[v|] rest]; try discriminate.
  destruct v; try discriminate.
  simpl in H. unfold IsStringASCII, V8StringToUTF16 in H.
  destruct (DoIsStringASCII units) eqn:Hascii; [|discriminate].
  injection H as <-.
  apply DoIsStringASCII_Forall in Hascii.
  destruct (UTF16ToASCII_prefix units Hascii) as (tail & Hs & Htail).
  exists units, rest, tail.
  split; [reflexivity|]. split; [assumption|].
  split; [|split; assumption].
  intros c Hin ->. unfold UTF16ToASCII in Hin.
  apply c_str_In in Hin. destruct Hin as [_ Hin]. discriminate.
Qed.

Lemma GetHostnameArgument_hostname_witness :
  exists s rest tail,
    [Some (VString [97%N; 46%N; 98%N; 0%N; 99%N]); Some VNull] =
      Some (VString s) :: rest /\
    Forall is_ascii_unit s /\
    (forall c, In c (lit "a.b") -> c <> NUL) /\
    s = map N_of_ascii (lit "a.b") ++ tail /\
    (tail = [] \/ exists units, tail = 0%N :: units).
Proof.
  apply (GetHostnameArgument_hostname
           [Some (VString [97%N; 46%N; 98%N; 0%N; 99%N]); Some VNull]).
  reflexivity.
Defined.


Lemma IsInNetEx_total (parse : std_string -> option IPAddressNumber)
    (cidr : std_string -> option (IPAddressNumber * nat))
    (matches : IPAddressNumber -> IPAddressNumber -> nat -> bool)
    (ip_address ip_prefix : std_string) :
  exists b, IsInNetEx parse cidr matches ip_address ip_prefix = Some b.
Proof.
  unfold IsInNetEx. rewrite RemoveChars_strip. unfold bind.
  destruct (existsb _ ip_address); [now eexists|].
  destruct (parse ip_address) as [address|]; [|now eexists].
  destruct (cidr ip_prefix) as [[prefix n]|]; [|now eexists].
  destruct (negb _); now eexists.
Qed.

Section CallbackFacts.
Context {v8 : V8} {js_bindings_ : ProxyResolverJSBindings}.
Variable WriteUtf8 : String16 -> std_string.
Variable ToString : Value -> String16 + Value.
Variable parse : std_string -> option IPAddressNumber.
Variable cidr : std_string -> option (IPAddressNumber * nat).
Variable matches : IPAddressNumber -> IPAddressNumber -> nat -> bool.

(** X8.  dnsResolveEx always sets a return value and never schedules
    an exception: [null] when its first argument is missing, not a
    string or not ASCII, the empty string when the lookup fails, the
    list of the bindings when it succeeds. *)
Theorem DnsResolveExCallback_result (args : FunctionCallbackInfo) :
  pending_exception (DnsResolveExCallback args) = None /\
  return_value (DnsResolveExCallback args) <> Unset /\
  (no_ascii_hostname args ->
   return_value (DnsResolveExCallback args) = SetTo VNull) /\
  (forall s rest ip_address_list,
      args = Some (VString s) :: rest ->
      Forall is_ascii_unit s ->
      DnsResolveEx (UTF16ToASCII s) = (false, ip_address_list) ->
      return_value (DnsResolveExCallback args) =
      SetTo (VString (NewFromUtf8 []))) /\
  (forall s rest ip_address_list,
      args = Some (VString s) :: rest ->
      Forall is_ascii_unit s ->
      DnsResolveEx (UTF16ToASCII s) = (true, ip_address_list) ->
      return_value (DnsResolveExCallback args) =
      SetTo (VString (NewFromUtf8 ip_address_list))).
Proof.
  unfold DnsResolveExCallback.
  split; [|split; [|split; [|split]]].
  - destruct (GetHostnameArgument args) as [hostname|]; [|reflexivity].
    now destruct (DnsResolveEx hostname).
  - destruct (GetHostnameArgument args) as [hostname|]; [|discriminate].
    destruct (DnsResolveEx hostname). discriminate.
  - intros Hbad. now rewrite (GetHostnameArgument_None _ Hbad).
  - intros s rest l -> Hs Hdns.
    now rewrite (GetHostnameArgument_Some _ _ Hs), Hdns.
  - intros s rest l -> Hs Hdns.
    now rewrite (GetHostnameArgument_Some _ _ Hs), Hdns.
Qed.

(** X9.  myIpAddress and myIpAddressEx ignore their arguments, never
    schedule an exception and always return a string: the answer of
    the bindings, and when the bindings fail ["127.0.0.1"] for
    myIpAddress and the empty string for myIpAddressEx. *)
Theorem MyIpAddress_callbacks_result (args : FunctionCallbackInfo) :
  (MyIpAddressCallback args = MyIpAddressCallback [] /\
   MyIpAddressCallback args =
   MkCallbackResult
     (SetTo (VString (NewFromUtf8 (if fst MyIpAddress then snd MyIpAddress
                                   else lit "127.0.0.1")))) None) /\
  (MyIpAddressExCallback args = MyIpAddressExCallback [] /\
   MyIpAddressExCallback args =
   MkCallbackResult
     (SetTo (VString (NewFromUtf8 (if fst MyIpAddressEx
                                   then snd MyIpAddressEx else [])))) None).
Proof.
  unfold MyIpAddressCallback, MyIpAddressExCallback.
  split; (split; [reflexivity|]).
  - destruct MyIpAddress as [[|] result]; reflexivity.
  - destruct MyIpAddressEx as [[|] result]; reflexivity.
Qed.


(** X11.  isInNetEx returns [null] unless its first two arguments are
    strings; otherwise, once both are converted, the boolean that
    IsInNetEx computes, which always exists. *)
Theorem IsInNetExCallback_result (args : FunctionCallbackInfo) :
  ((forall s0 s1 rest,
       args <> Some (VString s0) :: Some (VString s1) :: rest) ->
   IsInNetExCallback WriteUtf8 parse cidr matches args =
   Some (Returned (MkCallbackResult (SetTo VNull) None))) /\
  (forall s0 s1 rest ip_address ip_prefix,
      args = Some (VString s0) :: Some (VString s1) :: rest ->
      V8StringToUTF8 WriteUtf8 s0 = Returned ip_address ->
      V8StringToUTF8 WriteUtf8 s1 = Returned ip_prefix ->
      exists b,
        IsInNetEx parse cidr matches ip_address ip_prefix = Some b /\
        IsInNetExCallback WriteUtf8 parse cidr matches args =
        Some (Returned (MkCallbackResult (SetTo (VBoolean b)) None))).
Proof.
  split.
  - intros Hbad.
    destruct args as [|[v0|] [|[v1|] rest]]; try reflexivity;
      destruct v0; try reflexivity.
    destruct v1; try reflexivity.
    now elim (Hbad units units0 rest).
  - intros s0 s1 rest a p -> Ha Hp.
    unfold IsInNetExCallback. rewrite Ha, Hp.
    destruct (IsInNetEx_total parse cidr matches a p) as [b Hb].
    exists b. now rewrite Hb.
Qed.

(** X12.  alert never sets a return value and delivers at most one
    message, looking at its first argument only: ["undefined"] when
    called without arguments, the argument's string otherwise, and
    nothing at all when the argument's [toString()] throws, the
    exception staying pending. *)
Theorem AlertCallback_result (args : FunctionCallbackInfo) :
  return_value (fst (AlertCallback ToString args)) = Unset /\
  length (snd (AlertCallback ToString args)) <= 1 /\
  (args = [] ->
   AlertCallback ToString args =
   (MkCallbackResult Unset None,
    [AlertMessage (String16_of_literal "undefined")])) /\
  (forall v rest message,
      args = Some v :: rest -> ToString v = inl message ->
      AlertCallback ToString args =
      (MkCallbackResult Unset None, [AlertMessage message])) /\
  (forall v rest exception,
      args = Some v :: rest -> ToString v = inr exception ->
      AlertCallback ToString args =
      (MkCallbackResult Unset (Some exception), [])) /\
  (forall arg0 rest rest',
      args = arg0 :: rest ->
      AlertCallback ToString args = AlertCallback ToString (arg0 :: rest')).
Proof.
  split; [|split; [|split; [|split; [|split]]]].
  - destruct args as [|[v|] rest]; simpl; try reflexivity.
    now destruct (ToString v).
  - destruct args as [|[v|] rest]; simpl; auto.
    destruct (ToString v); simpl; auto.
  - now intros ->.
  - intros v rest message -> Hv. simpl. now rewrite Hv.
  - intros v rest exception -> Hv. simpl. now rewrite Hv.
  - now intros arg0 rest rest' ->.
Qed.

End CallbackFacts.

Lemma DnsResolveExCallback_result_witness :
  let cb := @DnsResolveExCallback toy_v8 toy_bindings in
  return_value (cb [Some (VNumber 7)]) = SetTo VNull /\
  return_value (cb [Some (VString (String16_of_literal "example.org"))]) =
    SetTo (VString []) /\
  return_value (cb [Some (VString (String16_of_literal "localhost"))]) =
    SetTo (VString (String16_of_literal "127.0.0.1;::1")).
Proof.
  cbv zeta. split; [|split].
  - apply (@DnsResolveExCallback_result toy_v8 toy_bindings).
    right; right; left. eexists _, _. split; reflexivity.
  - refine (proj1 (proj2 (proj2 (proj2
              (@DnsResolveExCallback_result toy_v8 toy_bindings _))))
              (String16_of_literal "example.org") [] [] eq_refl _ eq_refl).
    repeat constructor; vm_compute; discriminate.
  - refine (proj2 (proj2 (proj2 (proj2
              (@DnsResolveExCallback_result toy_v8 toy_bindings _))))
              (String16_of_literal "localhost") []
              (lit "127.0.0.1;::1") eq_refl _ eq_refl).
    repeat constructor; vm_compute; discriminate.
Defined.


Lemma IsInNetExCallback_result_witness :
  let cb := IsInNetExCallback toy_WriteUtf8 model_ParseIPLiteralToNumber
              model_ParseCIDRBlock IPNumberMatchesPrefix in
  cb [Some (VString (String16_of_literal "10.1.2.3"))] =
    Some (Returned (MkCallbackResult (SetTo VNull) None)) /\
  (exists b,
      IsInNetEx model_ParseIPLiteralToNumber model_ParseCIDRBlock
        IPNumberMatchesPrefix (lit "10.1.2.3") (lit "10.1.0.0/16") =
        Some b /\
      cb [Some (VString (String16_of_literal "10.1.2.3"));
          Some (VString (String16_of_literal "10.1.0.0/16"))] =
      Some (Returned (MkCallbackResult (SetTo (VBoolean b)) None))).
Proof.
  cbv zeta. split.
  - apply IsInNetExCallback_result. intros s0 s1 rest. discriminate.
  - apply (proj2 (IsInNetExCallback_result toy_WriteUtf8
                    model_ParseIPLiteralToNumber model_ParseCIDRBlock
                    IPNumberMatchesPrefix
                    [Some (VString (String16_of_literal "10.1.2.3"));
                     Some (VString (String16_of_literal "10.1.0.0/16"))])
             _ _ [] (lit "10.1.2.3") (lit "10.1.0.0/16")
             eq_refl eq_refl eq_refl).
Defined.

Lemma AlertCallback_result_witness :
  AlertCallback toy_ToString [] =
    (MkCallbackResult Unset None,
     [AlertMessage (String16_of_literal "undefined")]) /\
  AlertCallback toy_ToString
    [Some (VString (String16_of_literal "hi")); Some VNull] =
    (MkCallbackResult Unset None,
     [AlertMessage (String16_of_literal "hi")]) /\
  AlertCallback toy_ToString [Some (VObject 3)] =
    (MkCallbackResult Unset (Some (VObject 3)), []).
Proof.
  split; [|split].
  - now apply AlertCallback_result.
  - exact (proj1 (proj2 (proj2 (proj2
             (AlertCallback_result toy_ToString
                [Some (VString (String16_of_literal "hi")); Some VNull]))))
             (VString (String16_of_literal "hi")) [Some VNull]
             (String16_of_literal "hi") eq_refl eq_refl).
  - exact (proj1 (proj2 (proj2 (proj2 (proj2
             (AlertCallback_result toy_ToString [Some (VObject 3)])))))
             (VObject 3) [] (VObject 3) eq_refl eq_refl).
Defined.

(** * Further properties of the context and the facade *)

Section MoreFacadeFacts.
Context {v8 : V8} {script_h : ProxyResolverScript}.

(** What a returning ResolveProxy did, by its status. *)
Lemma ResolveProxy_cases (this this' : ResolverContext)
    (url host results results' : String16) (rv : net_error)
    (events : list Event) :
  ResolveProxy this url host results = Returned (rv, results', events, this') ->
  (rv = ERR_PAC_SCRIPT_FAILED /\ results' = results /\ this' = this /\
   fst (GetFindProxyForURL this) = false /\
   exists text, events = [EngineLocked; ErrorMessage text]) \/
  (exists function events' completion,
      GetFindProxyForURL this = (true, function) /\
      Function_Call (isolate_ this) function [VString url; VString host] =
        (isolate_ this', events', completion) /\
      ((exists text,
           completion = Caught (Some text) /\
           rv = ERR_PAC_SCRIPT_FAILED /\ results' = results /\
           events = EngineLocked :: events' ++ [ErrorMessage text]) \/
       (exists ret text,
           completion = Normal ret /\ IsString ret = false /\
           rv = ERR_PAC_SCRIPT_FAILED /\ results' = results /\
           events = EngineLocked :: events' ++ [ErrorMessage text]) \/
       (exists text,
           completion = Normal (VString results') /\
           Exists (fun c => (0x7F < c)%N) results' /\
           rv = ERR_PAC_SCRIPT_FAILED /\
           events = EngineLocked :: events' ++ [ErrorMessage text]) \/
       (completion = Normal (VString results') /\
        Forall is_ascii_unit results' /\
        rv = OK /\ events = EngineLocked :: events'))).
Proof.
  unfold ResolveProxy, UTF16StringToV8String.
  destruct (GetFindProxyForURL this) as [is_function function] eqn:Hfun.
  destruct is_function; cbn [negb].
  - destruct (Function_Call (isolate_ this) function
                [VString url; VString host])
      as [[isolate' events'] completion] eqn:Hcall.
    intros H. right. exists function, events', completion.
    split; [reflexivity|].
    destruct completion as [ret|[text|]]; [| |discriminate].
    + destruct ret;
        try (injection H as <- <- <- <-;
             split; [exact Hcall|]; right; left;
             eexists _, _; repeat split; reflexivity).
      unfold V8StringToUTF16, IsStringASCII in H.
      destruct (DoIsStringASCII units) eqn:Hascii; cbn [negb] in H;
        injection H as <- <- <- <-; (split; [exact Hcall|]).
      * right; right; right.
        apply DoIsStringASCII_Forall in Hascii. auto.
      * right; right; left.
        apply DoIsStringASCII_Exists in Hascii.
        eexists. repeat split; try reflexivity. exact Hascii.
    + injection H as <- <- <- <-. split; [exact Hcall|].
      left. eexists. repeat split; reflexivity.
  - intros [= <- <- <- <-]. left.
    repeat split. eexists. reflexivity.
Qed.

(** X13.  ResolveProxy returns [OK] only with a pure ASCII result,
    which is exactly the string the entry function returned from
    this call; nothing reaches the listener except what the script
    itself caused. *)
Theorem ResolveProxy_OK_result (this this' : ResolverContext)
    (url host results results' : String16) (events : list Event) :
  ResolveProxy this url host results =
    Returned (OK, results', events, this') ->
  Forall is_ascii_unit results' /\
  exists function events',
    GetFindProxyForURL this = (true, function) /\
    Function_Call (isolate_ this) function [VString url; VString host] =
      (isolate_ this', events', Normal (VString results')) /\
    events = EngineLocked :: events'.
Proof.
  intros H. apply ResolveProxy_cases in H.
  destruct H as [(Hrv & _)|(function & events' & completion & Hfun & Hcall
                            & H)]; [discriminate|].
  destruct H as [(text & _ & Hrv & _)|[(ret & text & _ & _ & Hrv & _)|
                 [(text & _ & _ & Hrv & _)|(-> & Hascii & _ & ->)]]];
    try discriminate.
  split; [assumption|]. now exists function, events'.
Qed.

(** X14.  A ResolveProxy that returns without [OK] returns
    [ERR_PAC_SCRIPT_FAILED], and the last thing it did was to hand
    the listener a diagnostic.  It leaves [*results] alone unless the
    entry function returned a string with a code unit above 0x7F, in
    which case [*results] holds that string. *)
Theorem ResolveProxy_failure_reported (this this' : ResolverContext)
    (url host results results' : String16) (rv : net_error)
    (events : list Event) :
  ResolveProxy this url host results =
    Returned (rv, results', events, this') ->
  rv <> OK ->
  rv = ERR_PAC_SCRIPT_FAILED /\
  (exists before text, events = before ++ [ErrorMessage text]) /\
  (results' = results \/
   Exists (fun c => (0x7F < c)%N) results' /\
   exists function events',
     Function_Call (isolate_ this) function [VString url; VString host] =
     (isolate_ this', events', Normal (VString results'))).
Proof.
  intros H Hrv. apply ResolveProxy_cases in H.
  destruct H as [(-> & -> & _ & _ & text & ->)|
                 (function & events' & completion & Hfun & Hcall & H)].
  - split; [reflexivity|]. split; [|now left].
    now exists [EngineLocked], text.
  - destruct H as [(text & _ & -> & -> & ->)|
                   [(ret & text & _ & _ & -> & -> & ->)|
                    [(text & -> & Hex & -> & ->)|(_ & _ & -> & _)]]].
    + split; [reflexivity|]. split; [|now left].
      now exists (EngineLocked :: events'), text.
    + split; [reflexivity|]. split; [|now left].
      now exists (EngineLocked :: events'), text.
    + split; [reflexivity|]. split.
      * now exists (EngineLocked :: events'), text.
      * right. split; [assumption|]. now exists function, events'.
    + now elim Hrv.
Qed.

Lemma GetProxyForURL_cases (this this' : ProxyResolverV8)
    (spec host results results' : String16) (rv : net_error)
    (events : list Event) :
  GetProxyForURL this spec host results =
    Returned (rv, results', events, this') ->
  (context_ this = None /\ rv = ERR_FAILED /\ this' = this /\
   results' = results /\ events = []) \/
  (exists context context',
      context_ this = Some context /\ context_ this' = Some context' /\
      ResolveProxy context spec host results =
        Returned (rv, results', events, context') /\
      rv <> ERR_FAILED).
Proof.
  unfold GetProxyForURL.
  destruct (context_ this) as [context|] eqn:Hctx.
  - destruct (ResolveProxy context spec host results)
      as [[[[rv0 results0] events0] context']|] eqn:Hres; [|discriminate].
    intros [= <- <- <- <-]. right. exists context, context'.
    split; [reflexivity|]. split; [reflexivity|].
    split; [exact Hres|].
    apply ResolveProxy_cases in Hres.
    destruct Hres as [(-> & _)|(f & e & c & _ & _ & H)]; [discriminate|].
    destruct H as [(? & _ & -> & _)|[(? & ? & _ & _ & -> & _)|
                   [(? & _ & _ & -> & _)|(_ & _ & -> & _)]]];
      discriminate.
  - intros [= <- <- <- <-]. left. repeat split.
Qed.

(** X15.  A GetProxyForURL that returns gives [ERR_FAILED] exactly
    when no context is loaded, and never loads or unloads one. *)
Theorem GetProxyForURL_ERR_FAILED_iff (this this' : ProxyResolverV8)
    (spec host results results' : String16) (rv : net_error)
    (events : list Event) :
  GetProxyForURL this spec host results =
    Returned (rv, results', events, this') ->
  (rv = ERR_FAILED <-> context_ this = None) /\
  (context_ this' = None <-> context_ this = None).
Proof.
  intros H. apply GetProxyForURL_cases in H.
  destruct H as [(Hctx & -> & -> & _)|
                 (context & context' & Hctx & Hctx' & _ & Hrv)].
  - tauto.
  - rewrite Hctx, Hctx'. split; split; intros; congruence.
Qed.

Lemma SetPacScript_loaded_iff (this : ProxyResolverV8)
    (script_data : String16) :
  context_ (snd (fst (SetPacScript this script_data))) <> None <->
  fst (fst (SetPacScript ProxyResolverV8_new script_data)) = OK.
Proof.
  rewrite !SetPacScript_InitV8.
  destruct script_data as [|c rest]; simpl; [split; congruence|].
  destruct (InitV8 (MkContext Isolate_New) (c :: rest))
    as [[rv context] events].
  destruct rv; simpl; split; congruence.
Qed.

(** X16.  After any sequence of SetPacScript, GetProxyForURL and
    PurgeMemory calls that returns, the resolver holds a context
    exactly when the last SetPacScript of the sequence returned
    [OK] - a status that depends on the script alone - or, if the
    sequence has no SetPacScript, when it held one at the start. *)
Theorem run_calls_loaded_iff (calls : list Call) :
  forall (this this' : ProxyResolverV8) (results results' : String16),
    run_calls this results calls = Returned (this', results') ->
    (context_ this' <> None <->
     match last_script calls with
     | Some script_data =>
         fst (fst (SetPacScript ProxyResolverV8_new script_data)) = OK
     | None => context_ this <> None
     end).
Proof.
  induction calls as [|call rest IH]; intros this this' results results' H.
  - injection H as <- <-. reflexivity.
  - destruct call as [script_data|spec host|]; simpl in H |- *.
    + pose proof (SetPacScript_loaded_iff this script_data) as Hset.
      destruct (SetPacScript this script_data) as [[rv next] events].
      apply IH in H. simpl in Hset.
      destruct (last_script rest); [exact H|].
      now rewrite H.
    + destruct (GetProxyForURL this spec host results)
        as [[[[rv results0] events] next]|] eqn:Hget; [|discriminate].
      apply IH in H. apply GetProxyForURL_cases in Hget.
      destruct (last_script rest); [exact H|].
      rewrite H.
      destruct Hget as [(_ & _ & -> & _)|(c & c' & -> & -> & _)];
        [reflexivity|split; discriminate].
    + unfold PurgeMemory in H.
      destruct (context_ this) as [context|] eqn:Hctx; [|discriminate].
      simpl in H. apply IH in H.
      destruct (last_script rest); [exact H|].
      rewrite H. simpl. split; discriminate.
Qed.

(** X17.  However many resolvers a process constructs, the V8
    platform is initialised by the first constructor that finds the
    static flag unset and by no other; the flag is set from then
    on. *)
Theorem construct_many_initializes_once (n : nat) (initialized : bool) :
  construct_many n initialized =
  (initialized || (0 <? n),
   if negb initialized && (0 <? n)
   then [CreateDefaultPlatform; InitializePlatform; V8_Initialize]
   else []).
Proof.
  revert initialized. induction n as [|n IH]; intros initialized.
  - simpl. now rewrite orb_false_r, andb_false_r.
  - simpl. unfold ProxyResolverV8_construct.
    destruct initialized; simpl; rewrite IH; simpl.
    + reflexivity.
    + now destruct n.
Qed.

End MoreFacadeFacts.

Lemma ResolveProxy_OK_result_witness :
  Forall is_ascii_unit (String16_of_literal "DIRECT") /\
  exists function events',
    @GetFindProxyForURL toy_v8
      (@MkContext toy_v8 [String16_of_literal "fDIRECT"]) =
      (true, function) /\
    @Function_Call toy_v8 [String16_of_literal "fDIRECT"] function
      [VString (String16_of_literal "http://a/");
       VString (String16_of_literal "a")] =
      ([String16_of_literal "fDIRECT"], events',
       Normal (VString (String16_of_literal "DIRECT"))) /\
    [EngineLocked] = EngineLocked :: events'.
Proof.
  apply (@ResolveProxy_OK_result toy_v8
           (@MkContext toy_v8 [String16_of_literal "fDIRECT"])
           (@MkContext toy_v8 [String16_of_literal "fDIRECT"])
           (String16_of_literal "http://a/") (String16_of_literal "a")
           [] (String16_of_literal "DIRECT") [EngineLocked]).
  reflexivity.
Defined.

Lemma ResolveProxy_failure_reported_witness :
  ERR_PAC_SCRIPT_FAILED = ERR_PAC_SCRIPT_FAILED /\
  (exists before text,
      [EngineLocked;
       ErrorMessage
         (String16_of_literal
            "FindProxyForURL() returned a non-ASCII string")] =
      before ++ [ErrorMessage text]) /\
  ([233%N] = String16_of_literal "old" \/
   Exists (fun c => (0x7F < c)%N) [233%N] /\
   exists function events',
     @Function_Call toy_v8 [[102%N; 233%N]] function
       [VString (String16_of_literal "http://a/");
        VString (String16_of_literal "a")] =
     ([[102%N; 233%N]], events', Normal (VString [233%N]))).
Proof.
  apply (@ResolveProxy_failure_reported toy_v8
           (@MkContext toy_v8 [[102%N; 233%N]])
           (@MkContext toy_v8 [[102%N; 233%N]])
           (String16_of_literal "http://a/") (String16_of_literal "a")
           (String16_of_literal "old") [233%N] ERR_PAC_SCRIPT_FAILED).
  - reflexivity.
  - discriminate.
Defined.

Lemma GetProxyForURL_ERR_FAILED_iff_witness :
  let loaded :=
    @MkProxyResolverV8 toy_v8
      (Some (@MkContext toy_v8 [String16_of_literal "fDIRECT"])) in
  (OK = ERR_FAILED <-> context_ loaded = None) /\
  (context_ loaded = None <-> context_ loaded = None).
Proof.
  cbv zeta.
  apply (@GetProxyForURL_ERR_FAILED_iff toy_v8
           (@MkProxyResolverV8 toy_v8
              (Some (@MkContext toy_v8 [String16_of_literal "fDIRECT"])))
           _ (String16_of_literal "http://a/") (String16_of_literal "a")
           [] (String16_of_literal "DIRECT") OK [EngineLocked]).
  reflexivity.
Defined.

Lemma run_calls_loaded_iff_witness :
  let calls :=
    [CallSetPacScript (String16_of_literal "fDIRECT");
     CallGetProxyForURL (String16_of_literal "http://a/")
       (String16_of_literal "a");
     CallPurgeMemory;
     CallGetProxyForURL (String16_of_literal "http://b/")
       (String16_of_literal "b")] in
  context_ (@MkProxyResolverV8 toy_v8
              (Some (@MkContext toy_v8
                       [String16_of_literal "fDIRECT";
                        String16_of_literal
                          "var isPlainHostName;var isResolvableEx;"])))
    <> None <->
  match last_script calls with
  | Some script_data =>
      fst (fst (@SetPacScript toy_v8 toy_script_h ProxyResolverV8_new
                  script_data)) = OK
  | None => context_ (@ProxyResolverV8_new toy_v8) <> None
  end.
Proof.
  cbv zeta.
  apply (@run_calls_loaded_iff toy_v8 toy_script_h _
           ProxyResolverV8_new _ [] (String16_of_literal "DIRECT")).
  reflexivity.
Defined.

(** X18.  RunScript returns [OK] exactly when the source compiles and
    runs without an exception, and [ERR_PAC_SCRIPT_FAILED] otherwise.
    A source that does not compile is never run: the context is left
    as it was and the listener receives only the compiler's
    diagnostic, if it has one. *)
Theorem RunScript_result {v8 : V8} (this : ResolverContext)
    (script : String16) (script_name : std_string) :
  (fst (fst (RunScript this script script_name)) = OK <->
   exists isolate', script_runs (isolate_ this) script script_name isolate') /\
  (fst (fst (RunScript this script script_name)) = OK \/
   fst (fst (RunScript this script script_name)) = ERR_PAC_SCRIPT_FAILED) /\
  (forall message,
      Script_Compile (isolate_ this) script script_name = Caught message ->
      RunScript this script script_name =
      (ERR_PAC_SCRIPT_FAILED, this, HandleError message) /\
      length (HandleError message) <= 1).
Proof.
  split; [|split].
  - rewrite RunScript_run_source. unfold script_runs.
    destruct (run_source (isolate_ this) script script_name)
      as [[isolate' events] [v|m]]; simpl.
    + split; [|reflexivity]. intros _. now exists isolate', events, v.
    + split; [discriminate|]. intros (i & e & v & H). discriminate.
  - rewrite RunScript_run_source.
    destruct (run_source (isolate_ this) script script_name)
      as [[isolate' events] [v|m]]; auto.
  - intros message H. unfold RunScript. rewrite H.
    split; [reflexivity|]. destruct message; simpl; auto.
Qed.
